(** * Entity matching pipeline: a shallow embedding of [src/entity_matching.py]

    The development follows the Python module function by function:
    [parse_date_safe], [fuzzy_match_entities], [build_llm_prompt],
    [llm_review_ambiguous] and [write_matches_to_db].

    Modelling conventions.
    - Text is a [string] holding the UTF-8 encoding of a Python [str]. Where
      the code looks at characters ([strip], [len], [isdigit], the regular
      expressions of [strptime]) the model decodes the bytes to code points
      and uses the character classes of Unicode.
    - A pandas row (what [iterrows]/[to_dict] yields) is a dict from column
      name to cell text, a [gmap string string]; a frame is the list of its
      rows in order.
    - A similarity score is an exact rational ([Qc]): every finite float is
      one, and the code only compares scores.
    - The relational store, the oracle and the audit log are explicit state.
    - A Python exception is a constructor of the result type, so that every
      [try]/[except] of the source is visible in the model. *)

From Stdlib Require Import ZArith QArith Qcanon Ascii String List Bool Lia.
From Stdlib Require Import DecimalString.
From stdpp Require Import base option list gmap strings numbers.

Local Open Scope string_scope.
Local Open Scope list_scope.
Local Open Scope Z_scope.

(** Outcome of a Python call that may raise. *)
Inductive raising (A : Type) : Type :=
| Returns (a : A)
| Raises.
Arguments Returns {A} a.
Arguments Raises {A}.

(* ================================================================== *)
(** ** Text as UTF-8: the code points of a [str] *)
(* ================================================================== *)

Module Utf8.

Definition byte (c : ascii) : Z := Z.of_N (N_of_ascii c).

Definition between (lo hi c : Z) : bool := (lo <=? c) && (c <=? hi).

(** A continuation byte, and the six bits it carries. *)
Definition is_cont (c : ascii) : bool := between 128 191 (byte c).

Definition low6 (c : ascii) : Z := byte c - 128.

(** The second byte of a sequence led by [a]: a continuation byte, in the
    narrower range that the leads E0, ED, F0 and F4 ask for (no overlong
    form, no surrogate, nothing above U+10FFFF). *)
Definition second_ok (a b : ascii) : bool :=
  between (if byte a =? 224 then 160 else if byte a =? 240 then 144 else 128)
          (if byte a =? 237 then 159 else if byte a =? 244 then 143 else 191)
          (byte b).

(** The code points of a text, each with the bytes that spell it. A byte
    that starts no well-formed sequence is kept as a character of its own,
    U+FFFD; the encoding of a [str] has no such byte. *)
Fixpoint points (bs : list ascii) : list (Z * list ascii) :=
  match bs with
  | [] => []
  | a :: r1 =>
      if byte a <? 128 then (byte a, [a]) :: points r1
      else
        match r1 with
        | b :: r2 =>
            if between 194 223 (byte a) && is_cont b
            then ((byte a - 192) * 64 + low6 b, [a; b]) :: points r2
            else
              match r2 with
              | c :: r3 =>
                  if between 224 239 (byte a) && second_ok a b && is_cont c
                  then (((byte a - 224) * 64 + low6 b) * 64 + low6 c,
                        [a; b; c]) :: points r3
                  else
                    match r3 with
                    | d :: r4 =>
                        if between 240 244 (byte a) && second_ok a b
                           && is_cont c && is_cont d
                        then ((((byte a - 240) * 64 + low6 b) * 64 + low6 c)
                                * 64 + low6 d,
                              [a; b; c; d]) :: points r4
                        else (65533, [a]) :: points r1
                    | [] => (65533, [a]) :: points r1
                    end
              | [] => (65533, [a]) :: points r1
              end
        | [] => (65533, [a]) :: points r1
        end
  end.

(** What iterating over a [str] yields, and [len]. *)
Definition code_points (s : string) : list Z :=
  map fst (points (list_ascii_of_string s)).

(** The text spelled by a list of bytes. *)
Definition text_of_bytes (bs : list Z) : string :=
  string_of_list_ascii (map (fun b => ascii_of_N (Z.to_N b)) bs).

End Utf8.

(* ================================================================== *)
(** ** Dates: [parse_date_safe] and the two [strptime] formats it uses *)
(* ================================================================== *)

Module DateParse.
Import Utf8.

Record date := Date { year : Z; month : Z; day : Z }.

(** The values [parse_date_safe] is followed on: [None], a [str], an
    [int], and [pandas.NA], the missing-value marker of the frames the
    module reads. *)
Inductive value :=
| VNone
| VText (s : string)
| VInt (z : Z)
| VNA.

(** [bool(v)], as [not v] takes it: [bool(pandas.NA)] raises [TypeError]. *)
Definition truth (v : value) : raising bool :=
  match v with
  | VNone => Returns false
  | VText s => Returns (match s with EmptyString => false | String _ _ => true end)
  | VInt z => Returns (negb (z =? 0))
  | VNA => Raises
  end.

(** [str(v)]. *)
Definition str (v : value) : string :=
  match v with
  | VNone => "None"
  | VText s => s
  | VInt z => NilZero.string_of_int (Z.to_int z)
  | VNA => "<NA>"
  end.

Definition chars (s : string) : list Z := code_points s.

Definition len (s : string) : nat := length (chars s).

Definition in_range (lo hi c : Z) : bool := (lo <=? c) && (c <=? hi).

(** The decimal digits of Unicode 14.0 (general category Nd), the table of
    CPython 3.11: runs of ten consecutive code points for the digits 0 to
    9. These are the characters that [\d] matches and that [int] reads. *)
Definition decimal_ranges : list (Z * Z) :=
  [(48, 57); (1632, 1641); (1776, 1785); (1984, 1993); (2406, 2415);
   (2534, 2543); (2662, 2671); (2790, 2799); (2918, 2927); (3046, 3055);
   (3174, 3183); (3302, 3311); (3430, 3439); (3558, 3567); (3664, 3673);
   (3792, 3801); (3872, 3881); (4160, 4169); (4240, 4249); (6112, 6121);
   (6160, 6169); (6470, 6479); (6608, 6617); (6784, 6793); (6800, 6809);
   (6992, 7001); (7088, 7097); (7232, 7241); (7248, 7257); (42528, 42537);
   (43216, 43225); (43264, 43273); (43472, 43481); (43504, 43513);
   (43600, 43609); (44016, 44025); (65296, 65305); (66720, 66729);
   (68912, 68921); (69734, 69743); (69872, 69881); (69942, 69951);
   (70096, 70105); (70384, 70393); (70736, 70745); (70864, 70873);
   (71248, 71257); (71360, 71369); (71472, 71481); (71904, 71913);
   (72016, 72025); (72784, 72793); (73040, 73049); (73120, 73129);
   (92768, 92777); (92864, 92873); (93008, 93017); (120782, 120831);
   (123200, 123209); (123632, 123641); (125264, 125273); (130032, 130041)].

(** The characters [str.isdigit] accepts (numeric type Decimal or Digit):
    the decimal digits, and superscripts, circled digits and the like. *)
Definition digit_ranges : list (Z * Z) :=
  [(48, 57); (178, 179); (185, 185); (1632, 1641); (1776, 1785);
   (1984, 1993); (2406, 2415); (2534, 2543); (2662, 2671); (2790, 2799);
   (2918, 2927); (3046, 3055); (3174, 3183); (3302, 3311); (3430, 3439);
   (3558, 3567); (3664, 3673); (3792, 3801); (3872, 3881); (4160, 4169);
   (4240, 4249); (4969, 4977); (6112, 6121); (6160, 6169); (6470, 6479);
   (6608, 6618); (6784, 6793); (6800, 6809); (6992, 7001); (7088, 7097);
   (7232, 7241); (7248, 7257); (8304, 8304); (8308, 8313); (8320, 8329);
   (9312, 9320); (9332, 9340); (9352, 9360); (9450, 9450); (9461, 9469);
   (9471, 9471); (10102, 10110); (10112, 10120); (10122, 10130);
   (42528, 42537); (43216, 43225); (43264, 43273); (43472, 43481);
   (43504, 43513); (43600, 43609); (44016, 44025); (65296, 65305);
   (66720, 66729); (68160, 68163); (68912, 68921); (69216, 69224);
   (69714, 69722); (69734, 69743); (69872, 69881); (69942, 69951);
   (70096, 70105); (70384, 70393); (70736, 70745); (70864, 70873);
   (71248, 71257); (71360, 71369); (71472, 71481); (71904, 71913);
   (72016, 72025); (72784, 72793); (73040, 73049); (73120, 73129);
   (92768, 92777); (92864, 92873); (93008, 93017); (120782, 120831);
   (123200, 123209); (123632, 123641); (125264, 125273); (127232, 127242);
   (130032, 130041)].

Definition holds (c : Z) (r : Z * Z) : bool := in_range (fst r) (snd r) c.

(** [\d] of a regular expression over [str]. *)
Definition is_decimal (c : Z) : bool := existsb (holds c) decimal_ranges.

(** The value [int] gives a decimal digit. *)
Definition digit (c : Z) : Z :=
  match find (holds c) decimal_ranges with
  | Some r => (c - fst r) mod 10
  | None => 0
  end.

(** [s.isdigit()]: non-empty and every character a digit. *)
Definition isdigit (s : string) : bool :=
  match chars s with
  | [] => false
  | cs => forallb (fun c => existsb (holds c) digit_ranges) cs
  end.

(** [sub in s] for a one-character [sub]. *)
Definition contains (c : Z) (s : string) : bool :=
  existsb (Z.eqb c) (chars s).

Definition dash : Z := 45.
Definition space : Z := 32.

(** The directives of a [strptime] format. *)
Inductive directive :=
| DY                  (* %Y *)
| Dm                  (* %m *)
| Dd                  (* %d *)
| DLit (c : Z).       (* a literal character *)

(** Each directive is a regular expression with a capture group; matching
    it against the front of the input gives, in the priority order of the
    alternatives, the captured number and the rest of the input.
    - [%Y] is [\d\d\d\d];
    - [%m] is [1[0-2]|0[1-9]|[1-9]];
    - [%d] is [3[0-1]|[1-2]\d|0[1-9]|[1-9]| [1-9]].
    A bracketed range holds ASCII digits only; [\d] is any decimal digit.
    The captured text is converted by [int]. *)
Definition two (p : Z -> bool) (q : Z -> bool) (cs : list Z)
  : list (Z * list Z) :=
  match cs with
  | a :: b :: rest =>
      if p a && q b then [(10 * digit a + digit b, rest)] else []
  | _ => []
  end.

Definition one (p : Z -> bool) (cs : list Z) : list (Z * list Z) :=
  match cs with
  | a :: rest => if p a then [(digit a, rest)] else []
  | _ => []
  end.

Definition space_then (p : Z -> bool) (cs : list Z) : list (Z * list Z) :=
  match cs with
  | a :: b :: rest =>
      if (a =? space) && p b then [(digit b, rest)] else []
  | _ => []
  end.

Definition re_Y (cs : list Z) : list (Z * list Z) :=
  match cs with
  | a :: b :: c :: d :: rest =>
      if is_decimal a && is_decimal b && is_decimal c && is_decimal d
      then [(1000 * digit a + 100 * digit b + 10 * digit c + digit d, rest)]
      else []
  | _ => []
  end.

Definition re_m (cs : list Z) : list (Z * list Z) :=
  two (in_range 49 49) (in_range 48 50) cs
  ++ two (in_range 48 48) (in_range 49 57) cs
  ++ one (in_range 49 57) cs.

Definition re_d (cs : list Z) : list (Z * list Z) :=
  two (in_range 51 51) (in_range 48 49) cs
  ++ two (in_range 49 50) is_decimal cs
  ++ two (in_range 48 48) (in_range 49 57) cs
  ++ one (in_range 49 57) cs
  ++ space_then (in_range 49 57) cs.

(** The fields found so far; [strptime] starts from 1900-01-01. *)
Definition start : date := Date 1900 1 1.

(** All the ways the compiled format matches a prefix of the input, first
    match first (a backtracking matcher tries them in this order). *)
Fixpoint matches (fmt : list directive) (acc : date) (cs : list Z)
  : list (date * list Z) :=
  match fmt with
  | [] => [(acc, cs)]
  | DY :: fmt' =>
      flat_map (fun '(y, rest) => matches fmt' (Date y (month acc) (day acc)) rest)
               (re_Y cs)
  | Dm :: fmt' =>
      flat_map (fun '(m, rest) => matches fmt' (Date (year acc) m (day acc)) rest)
               (re_m cs)
  | Dd :: fmt' =>
      flat_map (fun '(d, rest) => matches fmt' (Date (year acc) (month acc) d) rest)
               (re_d cs)
  | DLit c :: fmt' =>
      match cs with
      | a :: rest => if a =? c then matches fmt' acc rest else []
      | [] => []
      end
  end.

Definition is_leap (y : Z) : bool :=
  (y mod 4 =? 0) && (negb (y mod 100 =? 0) || (y mod 400 =? 0)).

Definition days_in_month (y m : Z) : Z :=
  if m =? 2 then (if is_leap y then 29 else 28)
  else if (m =? 4) || (m =? 6) || (m =? 9) || (m =? 11) then 30
  else 31.

(** The check made by the [date] constructor. *)
Definition valid_date (d : date) : bool :=
  (1 <=? year d) && (year d <=? 9999)
  && (1 <=? month d) && (month d <=? 12)
  && (1 <=? day d) && (day d <=? days_in_month (year d) (month d)).

(** [datetime.strptime(s, fmt).date()].  [ValueError] is raised when the
    format does not match, when the match leaves input unconverted, and
    when the fields are not a calendar date. *)
Definition strptime (fmt : list directive) (s : string) : raising date :=
  match matches fmt start (chars s) with
  | [] => Raises
  | (d, rest) :: _ =>
      match rest with
      | [] => if valid_date d then Returns d else Raises
      | _ :: _ => Raises
      end
  end.

(** ["%Y%m%d"] and ["%Y-%m-%d"]. *)
Definition fmt_compact : list directive := [DY; Dm; Dd].
Definition fmt_dashed : list directive := [DY; DLit dash; Dm; DLit dash; Dd].

(** The body of the [try], after [s = str(date_str)]: it returns a date,
    returns [None], or raises. *)
Definition parse_date_body (s : string) : raising (option date) :=
  if (len s =? 8)%nat && isdigit s then
    match strptime fmt_compact s with
    | Returns d => Returns (Some d)
    | Raises => Raises
    end
  else if (len s =? 10)%nat && contains dash s then
    match strptime fmt_dashed s with
    | Returns d => Returns (Some d)
    | Raises => Raises
    end
  else Returns None.

(** [parse_date_safe]: the truth test of the first line stands before the
    [try], so what it raises leaves the function; a falsy input returns
    [None] at once; [except Exception] turns a raise of the body into
    [None]. *)
Definition parse_date_safe (date_str : value) : raising (option date) :=
  match truth date_str with
  | Raises => Raises
  | Returns false => Returns None
  | Returns true =>
      match parse_date_body (str date_str) with
      | Returns r => Returns r
      | Raises => Returns None
      end
  end.

End DateParse.

(* ================================================================== *)
(** ** Text helpers shared by the matcher and the oracle client *)
(* ================================================================== *)

Module Text.
Import Utf8.

(** The characters for which [str.isspace] holds, which are the ones
    [str.strip()] and [str.split()] take for whitespace: the ASCII ones
    (tab to carriage return, the separators 28-31, space), U+0085, U+00A0,
    U+1680, U+2000 to U+200A, U+2028, U+2029, U+202F, U+205F, U+3000. *)
Definition space_ranges : list (Z * Z) :=
  [(9, 13); (28, 32); (133, 133); (160, 160); (5760, 5760); (8192, 8202);
   (8232, 8233); (8239, 8239); (8287, 8287); (12288, 12288)].

Definition is_space (c : Z) : bool :=
  existsb (fun r => between (fst r) (snd r) c) space_ranges.

Fixpoint lstrip (ps : list (Z * list ascii)) : list (Z * list ascii) :=
  match ps with
  | p :: ps' => if is_space (fst p) then lstrip ps' else ps
  | [] => []
  end.

Definition rstrip (ps : list (Z * list ascii)) : list (Z * list ascii) :=
  rev (lstrip (rev ps)).

(** [s.strip()]: the text without its leading and trailing whitespace
    characters. *)
Definition strip (s : string) : string :=
  string_of_list_ascii
    (concat (map snd (rstrip (lstrip (points (list_ascii_of_string s)))))).

(** Truth value of a [str]: the empty string is falsy. *)
Definition truthy (s : string) : bool :=
  match s with
  | EmptyString => false
  | String _ _ => true
  end.

(** [str.lower()], as far as the comparison with the two words high and
    medium can tell: the ASCII letters are lowered, and no character
    outside ASCII lowers to one of the letters of these words. *)
Definition lower_char (c : ascii) : ascii :=
  let n := N_of_ascii c in
  if ((65 <=? n) && (n <=? 90))%N then ascii_of_N (n + 32) else c.

Fixpoint lower (s : string) : string :=
  match s with
  | EmptyString => EmptyString
  | String c s' => String (lower_char c) (lower s')
  end.

(** Python's [a or b] on the results of two [dict.get] calls. *)
Definition py_or (a b : option string) : option string :=
  match a with
  | Some s => if truthy s then Some s else b
  | None => b
  end.

(** [row.get(k) or EMPTY], with EMPTY the empty string. *)
Definition get_or_empty (r : gmap string string) (k : string) : string :=
  match r !! k with
  | Some s => s
  | None => EmptyString
  end.

End Text.

(* ================================================================== *)
(** ** Candidate matcher and tier classifier: [fuzzy_match_entities] *)
(* ================================================================== *)

Module Matcher.
Import Text.

(** A cell as the store delivers it: text, or [None] for NULL. *)
Abbreviation staged_row := (gmap string (option string)).

(** [df.fillna] with the empty string: every missing cell becomes empty text. *)
Definition fillna_row (r : staged_row) : gmap string string :=
  default EmptyString <$> r.

Definition fillna (df : list staged_row) : list (gmap string string) :=
  map fillna_row df.

(** [df.empty]: the frame has no row or no column; a frame without
    columns yields rows that are empty dicts. *)
Definition df_empty (df : list staged_row) : bool :=
  forallb (fun r => bool_decide (r = ∅)) df.

(** The dict built for a matched pair: keys [cc], [abr], [score], [method]. *)
Record candidate := Candidate {
  cc : gmap string string;
  abr : gmap string string;
  score : Qc;
  method : string
}.

#[global] Instance candidate_eq_dec : EqDecision candidate.
Proof. solve_decision. Defined.

Definition cc_name_of (cc_row : gmap string string) : string :=
  strip (get_or_empty cc_row "company_name_norm").

Definition abr_name_of (abr_row : gmap string string) : string :=
  strip (get_or_empty abr_row "entity_name_norm").

(** A registry row takes part in the comparison when its stripped
    normalised name is not empty. *)
Abbreviation eligible e := (truthy (abr_name_of e) = true).

Section WithScorer.

(** [rapidfuzz.fuzz.token_sort_ratio], a library function. *)
Variable token_sort_ratio : string -> string -> Qc.

(** One turn of the inner loop over the registry rows; the state is
    [(best_score, best_abr_row)]. *)
Definition best_step (cc_name : string)
    (st : Qc * option (gmap string string)) (abr_row : gmap string string)
  : Qc * option (gmap string string) :=
  let abr_name := abr_name_of abr_row in
  if negb (truthy abr_name) then st
  else
    let score := token_sort_ratio cc_name abr_name in
    if bool_decide (fst st < score)%Qc then (score, Some abr_row) else st.

Definition best_match (cc_name : string) (abr_df : list (gmap string string))
  : Qc * option (gmap string string) :=
  fold_left (best_step cc_name) abr_df ((-1)%Qc, None).

(** One turn of the outer loop over the web rows; the state is
    [(ambiguous_matches, unmatched_cc)]. *)
Definition match_step (abr_df : list (gmap string string))
    (acc : list candidate * list (gmap string string))
    (cc_row : gmap string string)
  : list candidate * list (gmap string string) :=
  let cc_name := cc_name_of cc_row in
  if negb (truthy cc_name) then (fst acc, snd acc ++ [cc_row])
  else
    match best_match cc_name abr_df with
    | (best_score, Some best_abr_row) =>
        (fst acc ++ [Candidate cc_row best_abr_row best_score
                               "fuzzy_name_ambiguous"],
         snd acc)
    | (_, None) => (fst acc, snd acc ++ [cc_row])
    end.

(** Returns [(high_conf_matches, ambiguous_matches, unmatched_cc)].  The
    two thresholds are parameters of the source function and are not
    read by its body. *)
Definition fuzzy_match_entities
    (abr_df cc_df : list staged_row) (high_threshold low_threshold : Z)
  : list candidate * list candidate * list (gmap string string) :=
  if df_empty abr_df || df_empty cc_df then ([], [], [])
  else
    let abr_df := fillna abr_df in
    let cc_df := fillna cc_df in
    let '(ambiguous_matches, unmatched_cc) :=
      fold_left (match_step abr_df) cc_df ([], []) in
    ([], ambiguous_matches, unmatched_cc).

End WithScorer.

(** A scorer for worked examples: identical names score 100, as they do
    under [token_sort_ratio]; the examples compare no other pair of
    distinct non-empty names. *)
Definition same_name_ratio (a b : string) : Qc :=
  if String.eqb a b then Qc_of_Z 100 else Qc_of_Z 0.

End Matcher.

(* ================================================================== *)
(** ** Disambiguation oracle client: [build_llm_prompt] and
       [llm_review_ambiguous] *)
(* ================================================================== *)

Module Review.
Import Text Matcher.

#[local] Unset Elimination Schemes.

(** What [json.loads] returns. An object is the list of the items of the
    resulting dict, whose keys are distinct. *)
Inductive json :=
| JNull
| JBool (b : bool)
| JNum (q : Qc)
| JStr (s : string)
| JArr (items : list json)
| JObj (fields : list (string * json)).

#[local] Set Elimination Schemes.

(** [decision.get(key)]. *)
Fixpoint obj_get (fields : list (string * json)) (key : string) : option json :=
  match fields with
  | [] => None
  | (k, v) :: rest => if String.eqb k key then Some v else obj_get rest key
  end.

(** [bool(v)] for [v = decision.get("is_match")]; a missing key gives
    [None], which is falsy. *)
Definition py_bool (v : option json) : bool :=
  match v with
  | None | Some JNull => false
  | Some (JBool b) => b
  | Some (JNum q) => negb (bool_decide (q = 0%Qc))
  | Some (JStr s) => truthy s
  | Some (JArr items) => match items with [] => false | _ => true end
  | Some (JObj fields) => match fields with [] => false | _ => true end
  end.

(** [str(decision.get("confidence", EMPTY)).lower() in ("high", "medium")],
    with EMPTY the empty string.
    Only a JSON string can pass: [str] of null, of a boolean, of a number,
    of an array or of an object is [None], [True], [False], a numeral or a
    bracketed text, and the default is the empty string. *)
Definition confidence_passes (v : option json) : bool :=
  match v with
  | Some (JStr s) =>
      let confidence := lower s in
      String.eqb confidence "high" || String.eqb confidence "medium"
  | _ => false
  end.

(** Lines 299-303: parse the body and evaluate the acceptance test.
    [json.loads] may raise, and [.get] raises [AttributeError] on a value
    that is not a dict. *)
Definition decide_match (parsed : raising json) : raising bool :=
  match parsed with
  | Raises => Raises
  | Returns (JObj fields) =>
      let is_match := py_bool (obj_get fields "is_match") in
      Returns (is_match && confidence_passes (obj_get fields "confidence"))
  | Returns _ => Raises
  end.

(** What one oracle interaction brings back to the client. *)
Inductive reply :=
| CallFails
    (* [create] raises, the response has no text content, or the audit
       line cannot be written *)
| Answers (content : string) (parsed : raising json).
    (* the stripped message content, and [json.loads content] *)

(** The module-level state the function reads: [openai_client] and the
    environment variable [OPENAI_API_KEY]. *)
Record config := Config {
  client_available : bool;   (* [openai_client is not None] *)
  api_key_set : bool         (* [os.getenv("OPENAI_API_KEY") is not None] *)
}.

(** What the function can change outside itself: the prompts sent to the
    oracle, and the audit log (one [(prompt, response)] line per entry). *)
Record world := World {
  calls : list string;
  audit_log : list (string * string)
}.

Definition dq : string := String (ascii_of_nat 34) EmptyString.
Definition nl : string := String (ascii_of_nat 10) EmptyString.

(** [f"{v}"] for the result of a [dict.get]. *)
Definition fmt (v : option string) : string :=
  match v with
  | Some s => s
  | None => "None"
  end.

Definition build_llm_prompt (amb_match : candidate) : string :=
  let cc := cc amb_match in
  let abr := abr amb_match in
  let cc_name := py_or (cc !! "company_name_norm") (cc !! "company_name_raw") in
  let cc_url := cc !! "url" in
  let cc_domain := cc !! "domain" in
  let abr_abn := abr !! "abn" in
  let abr_name_norm := abr !! "entity_name_norm" in
  let abr_name_raw := abr !! "entity_name_raw" in
  let abr_type := abr !! "entity_type" in
  let abr_status := abr !! "entity_status" in
  let abr_addr := abr !! "address_full" in
  let abr_suburb := abr !! "suburb" in
  let abr_state := abr !! "state" in
  let abr_postcode := abr !! "postcode" in
  strip (String.concat nl [
    EmptyString;
    "You are matching Australian companies between a website (Common Crawl) and an ABR record.";
    EmptyString;
    "Common Crawl company:";
    "- Normalised name: " +:+ fmt cc_name;
    "- URL: " +:+ fmt cc_url;
    "- Domain: " +:+ fmt cc_domain;
    EmptyString;
    "ABR candidate:";
    "- ABN: " +:+ fmt abr_abn;
    "- Entity name (normalised): " +:+ fmt abr_name_norm;
    "- Entity name (raw): " +:+ fmt abr_name_raw;
    "- Entity type: " +:+ fmt abr_type;
    "- Status: " +:+ fmt abr_status;
    "- Address: " +:+ fmt abr_addr +:+ ", " +:+ fmt abr_suburb +:+ ", "
      +:+ fmt abr_state +:+ " " +:+ fmt abr_postcode;
    EmptyString;
    "Question:";
    "Are these records referring to the same underlying company?";
    EmptyString;
    "Respond **only** with a JSON object with the following shape:";
    "{";
    "  " +:+ dq +:+ "is_match" +:+ dq +:+ ": true or false,";
    "  " +:+ dq +:+ "confidence" +:+ dq +:+ ": " +:+ dq +:+ "low" +:+ dq
      +:+ " | " +:+ dq +:+ "medium" +:+ dq +:+ " | " +:+ dq +:+ "high" +:+ dq +:+ ",";
    "  " +:+ dq +:+ "reason" +:+ dq +:+ ": " +:+ dq +:+ "short explanation here" +:+ dq;
    "}";
    EmptyString ]).

(** [ambiguous_matches[:k]] and [ambiguous_matches[k:]]: a negative index
    counts from the end, and an index out of range is clipped. *)
Definition slice_index (k : Z) (n : nat) : nat :=
  if k <? 0 then Z.to_nat (Z.of_nat n + k) else Z.to_nat k.

Definition slice_to {A} (k : Z) (l : list A) : list A :=
  take (slice_index k (length l)) l.

Definition slice_from {A} (k : Z) (l : list A) : list A :=
  drop (slice_index k (length l)) l.

(** [amb_copy = dict(amb); amb_copy["method"] = "llm_disambiguation"]. *)
Definition retag (amb : candidate) : candidate :=
  Candidate (cc amb) (abr amb) (score amb) "llm_disambiguation".

Section WithOracle.

(** The oracle: what the [n]-th call of the run (counted from 0 over the
    calls already in [calls]) answers to a prompt. *)
Variable oracle : nat -> string -> reply.

(** The body of the [for amb in to_review] loop; the state is the world
    and [llm_approved]. Every exception of the [try] block is caught and
    the loop goes on with the next item. *)
Definition review_item (st : world * list candidate) (amb : candidate)
  : world * list candidate :=
  let '(w, llm_approved) := st in
  let prompt := build_llm_prompt amb in
  match oracle (length (calls w)) prompt with
  | CallFails => (World (calls w ++ [prompt]) (audit_log w), llm_approved)
  | Answers content parsed =>
      let w' := World (calls w ++ [prompt])
                      (audit_log w ++ [(prompt, content)]) in
      match decide_match parsed with
      | Returns true => (w', llm_approved ++ [retag amb])
      | Returns false => (w', llm_approved)
      | Raises => (w', llm_approved)
      end
  end.

(** Returns [((llm_approved, still_ambiguous), world after)]. *)
Definition llm_review_ambiguous (cfg : config)
    (ambiguous_matches : list candidate) (max_to_review : Z) (w : world)
  : (list candidate * list candidate) * world :=
  match ambiguous_matches with
  | [] => (([], []), w)
  | _ :: _ =>
      if negb (client_available cfg) || negb (api_key_set cfg)
      then (([], ambiguous_matches), w)
      else
        let to_review := slice_to max_to_review ambiguous_matches in
        let remaining := slice_from max_to_review ambiguous_matches in
        let '(w', llm_approved) :=
          fold_left review_item to_review (w, []) in
        let still_ambiguous :=
          filter (fun m => m ∉ llm_approved) to_review ++ remaining in
        ((llm_approved, still_ambiguous), w')
  end.

(** The items of [items] whose own reply passes the acceptance test,
    when the first of them is asked in call number [base]. *)
Fixpoint accepted_from (base : nat) (items : list candidate)
  : list candidate :=
  match items with
  | [] => []
  | amb :: rest =>
      match oracle base (build_llm_prompt amb) with
      | Answers _ parsed =>
          match decide_match parsed with
          | Returns true => amb :: accepted_from (S base) rest
          | _ => accepted_from (S base) rest
          end
      | CallFails => accepted_from (S base) rest
      end
  end.

End WithOracle.

(** A per-item failure: the call fails, the body is not JSON, or the parsed
    value is not an object. *)
Definition is_object (v : json) : bool :=
  match v with
  | JObj _ => true
  | _ => false
  end.

Definition item_fails (r : reply) : bool :=
  match r with
  | CallFails => true
  | Answers _ Raises => true
  | Answers _ (Returns v) => negb (is_object v)
  end.

(** The response shape the prompt asks for, in the words of the interface
    description: an object with a boolean [is_match], a [confidence] that
    is one of low, medium, high, and a text [reason]. *)
Definition is_level (s : string) : bool :=
  String.eqb s "low" || String.eqb s "medium" || String.eqb s "high".

Definition matches_shape (v : json) : bool :=
  match v with
  | JObj fields =>
      match obj_get fields "is_match", obj_get fields "confidence",
            obj_get fields "reason" with
      | Some (JBool _), Some (JStr c), Some (JStr _) => is_level c
      | _, _, _ => false
      end
  | _ => false
  end.

End Review.

(* ================================================================== *)
(** ** Unification writer: [write_matches_to_db] *)
(* ================================================================== *)

Module Writer.
Import Text Matcher.

(** A row of [company_unified]: the key handed out by the store, then the
    fifteen columns of the INSERT in order. *)
Record unified_row := UnifiedRow {
  company_id : Z;
  u_abn : string;
  unified_name : option string;
  unified_name_norm : option string;
  website_domain : option string;
  website_url_sample : option string;
  industry : option string;
  entity_type : option string;
  entity_status : option string;
  address_full : option string;
  suburb : option string;
  postcode : option string;
  state : option string;
  start_date : option DateParse.date;
  match_confidence : Qc;
  match_method : string
}.

(** A row of [company_source_link]. *)
Record link_row := LinkRow {
  link_company_id : Z;
  source_system : string;
  source_key : string
}.

(** The two tables and the identity sequence of [company_unified]. *)
Record store := Store {
  company_unified : list unified_row;
  company_source_link : list link_row;
  next_company_id : Z
}.

(** [TRUNCATE TABLE company_source_link, company_unified RESTART IDENTITY]. *)
Definition truncate (s : store) : store := Store [] [] 1.

(** The [unified_record] dict of one match, given the key the store hands
    out. The cell handed to [parse_date_safe] is a text. [abr["abn"]]
    raises [KeyError] when the column is missing. *)
Definition unified_record (m : candidate) (id : Z) : raising unified_row :=
  let cc := cc m in
  let abr := abr m in
  match
    DateParse.parse_date_safe
      (DateParse.VText
         (match abr !! "start_date_raw" with Some s => s | None => EmptyString end))
  with
  | Raises => Raises
  | Returns start_date =>
  match abr !! "abn" with
  | None => Raises
  | Some abn =>
      Returns (UnifiedRow id abn
        (py_or (abr !! "entity_name_raw") (abr !! "entity_name_norm"))
        (abr !! "entity_name_norm")
        (cc !! "domain")
        (cc !! "url")
        (cc !! "industry")
        (abr !! "entity_type")
        (abr !! "entity_status")
        (abr !! "address_full")
        (abr !! "suburb")
        (abr !! "postcode")
        (abr !! "state")
        start_date
        (score m)
        (method m))
  end
  end.

Section WithConstraints.

(** The table constraints of [company_unified] are declared in the DDL
    script, which is not part of the sources: [admits rows r] says that
    the store takes row [r] when the table holds [rows]. *)
Variable admits : list unified_row -> unified_row -> bool.

(** The body of the [for m in matches] loop: one unified row, its key
    read back, then the ABR link and the Common Crawl link. *)
Definition insert_match (s : store) (m : candidate) : raising store :=
  match unified_record m (next_company_id s) with
  | Raises => Raises
  | Returns row =>
      if negb (admits (company_unified s) row) then Raises
      else
        let company_id := next_company_id s in
        let links1 := company_source_link s
                      ++ [LinkRow company_id "ABR" (u_abn row)] in
        match cc m !! "commoncrawl_id" with
        | None => Raises
        | Some key =>
            Returns (Store (company_unified s ++ [row])
                           (links1 ++ [LinkRow company_id "COMMONCRAWL" key])
                           (company_id + 1))
        end
  end.

Fixpoint insert_all (s : store) (matches : list candidate) : raising store :=
  match matches with
  | [] => Returns s
  | m :: rest =>
      match insert_match s m with
      | Raises => Raises
      | Returns s' => insert_all s' rest
      end
  end.

(** Returns the store after the call and whether the call returned or
    re-raised. An empty list returns before the connection is opened; an
    exception rolls the transaction back, truncation included. *)
Definition write_matches_to_db (matches : list candidate) (s : store)
  : store * raising unit :=
  match matches with
  | [] => (s, Returns tt)
  | _ :: _ =>
      match insert_all (truncate s) matches with
      | Returns s' => (s', Returns tt)
      | Raises => (s, Raises)
      end
  end.

End WithConstraints.

(** Row counts of the two tables. *)
Definition row_counts (s : store) : nat * nat :=
  (length (company_unified s), length (company_source_link s)).

End Writer.

(* ================================================================== *)
(** ** Sample data for the worked examples *)
(* ================================================================== *)

Module Samples.
Import Text Matcher Review Writer.

(** Registry rows: two entities with the same normalised name, and one
    without a name. *)
Definition acme_abr : staged_row :=
  {[ "abn" := Some "A1"; "entity_name_norm" := Some "ACME PTY LTD" ]}.

Definition acme_abr_twin : staged_row :=
  {[ "abn" := Some "A2"; "entity_name_norm" := Some "ACME PTY LTD" ]}.

Definition nameless_abr : staged_row :=
  {[ "abn" := Some "A3"; "entity_name_norm" := None ]}.

(** Web rows: one named mention and one whose name is blank. *)
Definition acme_cc : staged_row :=
  {[ "commoncrawl_id" := Some "1"; "company_name_norm" := Some "ACME PTY LTD" ]}.

Definition blank_cc : staged_row :=
  {[ "commoncrawl_id" := Some "2"; "company_name_norm" := Some "  " ]}.

(** A name made of one no-break space, U+00A0, on either side. *)
Definition nbsp : string := Utf8.text_of_bytes [194; 160].

Definition nbsp_cc : staged_row :=
  {[ "commoncrawl_id" := Some "3"; "company_name_norm" := Some nbsp ]}.

Definition nbsp_abr : staged_row :=
  {[ "abn" := Some "A4"; "entity_name_norm" := Some nbsp ]}.

(** The candidate the matcher builds for [acme_cc] against [acme_abr]. *)
Definition acme_pair : candidate :=
  Candidate (fillna_row acme_cc) (fillna_row acme_abr) (Qc_of_Z 100)
            "fuzzy_name_ambiguous".

Definition acme_pair_twin : candidate :=
  Candidate (fillna_row acme_cc) (fillna_row acme_abr_twin) (Qc_of_Z 100)
            "fuzzy_name_ambiguous".

(** A verdict object as the prompt asks for it. *)
Definition verdict (is_match : bool) (confidence : string) : json :=
  JObj [("is_match", JBool is_match); ("confidence", JStr confidence);
        ("reason", JStr "names agree")].

(** An object that departs from the requested shape: [reason] is
    missing. *)
Definition bare_verdict (is_match : bool) (confidence : string) : json :=
  JObj [("is_match", JBool is_match); ("confidence", JStr confidence)].

(** Oracles that give the same answer to every call. *)
Definition oracle_says (v : json) : nat -> string -> reply :=
  fun _ _ => Answers "(verdict)" (Returns v).

Definition oracle_down : nat -> string -> reply := fun _ _ => CallFails.

(** An oracle whose first answer is not JSON and whose later answers
    accept. *)
Definition oracle_garbled_first : nat -> string -> reply :=
  fun n _ =>
    match n with
    | O => Answers "Sure, here you go" Raises
    | S _ => Answers "(verdict)" (Returns (verdict true "high"))
    end.

Definition ready : config := Config true true.
Definition no_key : config := Config true false.
Definition no_client : config := Config false true.

Definition fresh : world := World [] [].

(** A store that takes every row, and a store left by an earlier run. *)
Definition admit_all : list unified_row -> unified_row -> bool :=
  fun _ _ => true.

Definition stale_row : unified_row :=
  UnifiedRow 1 "A9" (Some "OLD CO") (Some "OLD CO") None None None None None
             None None None None None (Qc_of_Z 80) "llm_disambiguation".

Definition stale_store : store :=
  Store [stale_row] [LinkRow 1 "ABR" "A9"; LinkRow 1 "COMMONCRAWL" "7"] 2.

Definition empty_store : store := Store [] [] 1.

End Samples.

(* ================================================================== *)
(** ** The pipeline entry point: [main] *)
(* ================================================================== *)

Module Pipeline.
Import Text Matcher Review Writer.

Definition LLM_MAX_REVIEWS : Z := 10.

(** The counts printed at the end of a run. *)
Record summary := Summary {
  abr_entities : nat;
  cc_companies : nat;
  high_confidence : nat;
  llm_approved_count : nat;
  total_written : nat;
  ambiguous_remaining : nat;
  unmatched_count : nat
}.

Section Run.

Variable token_sort_ratio : string -> string -> Qc.
Variable oracle : nat -> string -> reply.
Variable admits : list unified_row -> unified_row -> bool.
Variable cfg : config.

(** [main], from the two frames that [fetch_staging_data] has read. The
    result is the world and the store after the run, and the summary, or
    [Raises] when the writer re-raised (the summary is then not printed). *)
Definition main (abr_df cc_df : list staged_row) (w : world) (s : store)
  : world * store * raising summary :=
  let '(high_conf_matches, ambiguous_matches, unmatched_cc) :=
    fuzzy_match_entities token_sort_ratio abr_df cc_df 95 0 in
  let '((llm_approved_matches, remaining_ambiguous), w') :=
    llm_review_ambiguous oracle cfg ambiguous_matches LLM_MAX_REVIEWS w in
  let all_matches_to_write := high_conf_matches ++ llm_approved_matches in
  match write_matches_to_db admits all_matches_to_write s with
  | (s', Raises) => (w', s', Raises)
  | (s', Returns _) =>
      (w', s',
       Returns (Summary (length abr_df) (length cc_df)
                        (length high_conf_matches)
                        (length llm_approved_matches)
                        (length all_matches_to_write)
                        (length remaining_ambiguous)
                        (length unmatched_cc)))
  end.

End Run.

End Pipeline.

(* ================================================================== *)
(** ** Dates written out as text *)
(* ================================================================== *)

(** The two texts [parse_date_safe] is meant to read back: a date written
    as YYYYMMDD and as YYYY-MM-DD, every field padded with zeros. *)
Module DateText.
Import Utf8 DateParse.

Definition digit_char (n : Z) : ascii := ascii_of_N (Z.to_N (48 + n)).

Definition two_digits (n : Z) : list ascii :=
  [digit_char (n / 10); digit_char (n mod 10)].

Definition four_digits (n : Z) : list ascii :=
  [digit_char (n / 1000); digit_char (n / 100 mod 10);
   digit_char (n / 10 mod 10); digit_char (n mod 10)].

Definition show_compact (d : date) : string :=
  string_of_list_ascii
    (four_digits (year d) ++ two_digits (month d) ++ two_digits (day d)).

Definition show_dashed (d : date) : string :=
  string_of_list_ascii
    (four_digits (year d) ++ "-"%char :: two_digits (month d)
       ++ "-"%char :: two_digits (day d)).

(** The same with the day of the month, below 10, padded with a space. *)
Definition show_dashed_padded (d : date) : string :=
  string_of_list_ascii
    (four_digits (year d) ++ "-"%char :: two_digits (month d)
       ++ "-"%char :: [" "%char; digit_char (day d)]).

(** The code points of ASCII characters. *)
Definition codes (l : list ascii) : list Z := map byte l.

(** The number that a run of decimal digits, of whatever script, spells. *)
Definition number (cs : list Z) : Z :=
  fold_left (fun n c => 10 * n + digit c) cs 0.

Definition spells (cs : list Z) (n : Z) : Prop :=
  forallb is_decimal cs = true /\ number cs = n.

(** The three ways a text can write a date for [parse_date_safe]: the year
    in four decimal digits, the month in two ASCII digits, the day in two
    decimal digits, with or without dashes; or, with dashes, the day in
    one ASCII digit after a space. *)
Definition writes_compact (cs : list Z) (d : date) : Prop :=
  exists ys ds,
    cs = ys ++ codes (two_digits (month d)) ++ ds
    /\ length ys = 4%nat /\ spells ys (year d)
    /\ length ds = 2%nat /\ spells ds (day d).

Definition writes_dashed (cs : list Z) (d : date) : Prop :=
  exists ys ds,
    cs = ys ++ dash :: codes (two_digits (month d)) ++ dash :: ds
    /\ length ys = 4%nat /\ spells ys (year d)
    /\ length ds = 2%nat /\ spells ds (day d).

Definition writes_padded (cs : list Z) (d : date) : Prop :=
  exists ys,
    cs = ys ++ dash :: codes (two_digits (month d))
              ++ [dash; space; 48 + day d]
    /\ length ys = 4%nat /\ spells ys (year d)
    /\ 1 <= day d <= 9.

(** The year 2020 in full-width digits (U+FF12 U+FF10 U+FF12 U+FF10)
    followed by 0131. *)
Definition fullwidth_2020_0131 : string :=
  text_of_bytes [239; 188; 146; 239; 188; 144; 239; 188; 146; 239; 188; 144;
                 48; 49; 51; 49].

End DateText.

(* ================================================================== *)
(** ** Reading the two tables after a write *)
(* ================================================================== *)

Module WriterRows.
Import Text Matcher Writer.

(** The two link rows written for a unified row and its candidate. *)
Definition links_of (p : unified_row * candidate) : list link_row :=
  [LinkRow (company_id (fst p)) "ABR" (u_abn (fst p));
   LinkRow (company_id (fst p)) "COMMONCRAWL"
           (get_or_empty (cc (snd p)) "commoncrawl_id")].

(** A unified row mirrors its candidate. *)
Definition mirrors (row : unified_row) (m : candidate) : Prop :=
  abr m !! "abn" = Some (u_abn row)
  /\ match_confidence row = score m
  /\ match_method row = method m
  /\ DateParse.parse_date_safe
       (DateParse.VText (get_or_empty (abr m) "start_date_raw"))
     = Returns (start_date row).

End WriterRows.

(* ================================================================== *)
(** ** More sample data *)
(* ================================================================== *)

Module MoreSamples.
Import Text Matcher Review Writer Samples.

(** An accepted pair whose web row has lost its [commoncrawl_id]. *)
Definition keyless_pair : candidate :=
  Candidate {[ "company_name_norm" := "ACME PTY LTD" ]} (fillna_row acme_abr)
            (Qc_of_Z 100) "llm_disambiguation".

End MoreSamples.

(* ================================================================== *)
(** ** Names of web companies: [derive_company_name_from_domain] and
       [normalize_name] of [src/extract_commoncrawl_ccindex.py] *)
(* ================================================================== *)

(** These two functions fill the columns [company_name_raw] and
    [company_name_norm] that the matcher reads. *)
Module Ingest.
Import Utf8 Text.

(** [s.startswith(prefix)] and [s[len(prefix):]], for an ASCII prefix. *)
Fixpoint startswith (prefix s : list ascii) : bool :=
  match prefix, s with
  | [], _ => true
  | p :: prefix', c :: s' => Ascii.eqb p c && startswith prefix' s'
  | _ :: _, [] => false
  end.

(** One turn of [for prefix in ("www.", "m.", "web.")]. *)
Definition cut_prefix (clean : list ascii) (prefix : string) : list ascii :=
  let p := list_ascii_of_string prefix in
  if startswith p clean then drop (length p) clean else clean.

(** [s.split(sep)] for a one-character ASCII separator: the pieces between
    the separators, empty ones included; [cur] is the piece being read. *)
Fixpoint split_on (sep : ascii) (cur cs : list ascii) : list (list ascii) :=
  match cs with
  | [] => [cur]
  | c :: rest =>
      if Ascii.eqb c sep then cur :: split_on sep [] rest
      else split_on sep (cur ++ [c]) rest
  end.

(** The bytes of a run of characters. *)
Definition spell (ps : list (Z * list ascii)) : list ascii :=
  concat (map snd ps).

(** [s.split()]: the runs of characters between whitespace, none of them
    empty; [cur] is the run being read. *)
Fixpoint words_from (cur ps : list (Z * list ascii))
  : list (list (Z * list ascii)) :=
  match ps with
  | [] => match cur with [] => [] | _ :: _ => [cur] end
  | p :: rest =>
      if is_space (fst p) then
        match cur with
        | [] => words_from [] rest
        | _ :: _ => cur :: words_from [] rest
        end
      else words_from (cur ++ [p]) rest
  end.

(** [" ".join(ws)]. *)
Fixpoint join_space (ws : list (list ascii)) : list ascii :=
  match ws with
  | [] => []
  | [w] => w
  | w :: rest => w ++ " "%char :: join_space rest
  end.

Section WithStr.

(** [str.lower], [str.upper] and [str.isalnum] (of one character), taken
    from the library as they are. *)
Variable lower upper : string -> string.
Variable isalnum : Z -> bool.

Definition derive_company_name_from_domain (domain : string) : option string :=
  if negb (truthy domain) then None
  else
    let clean := list_ascii_of_string (lower domain) in
    let clean := fold_left cut_prefix ["www."; "m."; "web."] clean in
    let parts := split_on "."%char [] clean in
    let label :=
      match parts with
      | first :: _ :: _ => first
      | _ => clean
      end in
    let name := spell (filter (fun p => isalnum (fst p) = true) (points label)) in
    match name with
    | [] => None
    | _ :: _ => Some (upper (string_of_list_ascii name))
    end.

Definition normalize_name (name : option string) : option string :=
  match name with
  | None => None
  | Some n =>
      if negb (truthy n) then None
      else Some (string_of_list_ascii
                   (join_space
                      (map spell
                         (words_from [] (points (list_ascii_of_string (upper n)))))))
  end.

End WithStr.

(** *** The three library functions on ASCII text *)

Definition is_ascii (s : string) : bool :=
  forallb (fun c => byte c <? 128) (list_ascii_of_string s).

Definition ascii_isalnum (c : Z) : bool :=
  between 48 57 c || between 65 90 c || between 97 122 c.

Definition upper_char (c : ascii) : ascii :=
  if between 97 122 (byte c) then ascii_of_N (N_of_ascii c - 32) else c.

Definition ascii_upper (s : string) : string :=
  string_of_list_ascii (map upper_char (list_ascii_of_string s)).

(** What the library is known to do on ASCII text: [lower] and [upper]
    move the 26 letters, [isalnum] holds of the letters and the digits. *)
Definition on_ascii (lower upper : string -> string) (isalnum : Z -> bool)
  : Prop :=
  (forall s, is_ascii s = true -> lower s = Text.lower s)
  /\ (forall s, is_ascii s = true -> upper s = ascii_upper s)
  /\ (forall c, 0 <= c < 128 -> isalnum c = ascii_isalnum c).

(** [s.split()] of an ASCII text, byte by byte. *)
Fixpoint ascii_words_from (cur cs : list ascii) : list (list ascii) :=
  match cs with
  | [] => match cur with [] => [] | _ :: _ => [cur] end
  | c :: rest =>
      if is_space (byte c) then
        match cur with
        | [] => ascii_words_from [] rest
        | _ :: _ => cur :: ascii_words_from [] rest
        end
      else ascii_words_from (cur ++ [c]) rest
  end.

(** A word as [split] yields it: not empty, without whitespace. *)
#[warnings="-inconsistent-scopes"]
Abbreviation proper_word w :=
  (w <> @nil ascii /\ Forall (fun c : ascii => is_space (byte c) = false) w).

(** Letters in capitals and digits. *)
Definition is_capital_or_digit (c : ascii) : bool :=
  between 48 57 (byte c) || between 65 90 (byte c).

End Ingest.

(* ================================================================== *)
(** ** Bulk loading: [strip_ns] and the batched insert loop of
       [src/extract_abr_bulk.py] and [src/extract_commoncrawl_ccindex.py] *)
(* ================================================================== *)

Module Bulk.

(** [tag.split("}", 1)[1]] when the tag holds a closing brace: what
    follows the first one. *)
Fixpoint after_brace (tag : string) : option string :=
  match tag with
  | EmptyString => None
  | String c rest =>
      if Ascii.eqb c "}"%char then Some rest else after_brace rest
  end.

Definition strip_ns (tag : string) : string :=
  match after_brace tag with
  | Some local => local
  | None => tag
  end.

Section Batches.
Context {A : Type}.

(** The state of the loading loop: the rows collected in [batch], the
    argument of every [execute_values] call made so far, and [total]. *)
Definition loading : Type := list A * list (list A) * nat.

(** One turn of the loop over the records: append, then flush when the
    batch has reached [BATCH_SIZE]. *)
Definition batch_step (BATCH_SIZE : nat) (st : loading) (rec : A) : loading :=
  let '(batch, executed, total) := st in
  let batch := batch ++ [rec] in
  if (BATCH_SIZE <=? length batch)%nat
  then ([], executed ++ [batch], (total + length batch)%nat)
  else (batch, executed, total).

(** The loop and the final flush ([if batch: ...]). Returns the
    [execute_values] calls in order and [total]. *)
Definition load_in_batches (BATCH_SIZE : nat) (records : list A)
  : list (list A) * nat :=
  let '(batch, executed, total) :=
    fold_left (batch_step BATCH_SIZE) records ([], [], 0%nat) in
  match batch with
  | [] => (executed, total)
  | _ :: _ => (executed ++ [batch], (total + length batch)%nat)
  end.

End Batches.

End Bulk.

(* ================================================================== *)
(** ** One registry record from XML: [parse_abr_entity] of
       [src/extract_abr_bulk.py] *)
(* ================================================================== *)

Module AbrXml.
Import Text Bulk.

#[local] Unset Elimination Schemes.

(** An XML element as ElementTree shows it: tag, attributes, the text
    before the first child, and the children. *)
Inductive element :=
| Elem (tag : string) (attrib : gmap string string) (text : option string)
       (children : list element).

#[local] Set Elimination Schemes.

Definition e_tag (e : element) : string :=
  match e with Elem tag _ _ _ => tag end.

Definition e_attrib (e : element) : gmap string string :=
  match e with Elem _ attrib _ _ => attrib end.

Definition e_text (e : element) : option string :=
  match e with Elem _ _ text _ => text end.

(** [elem.iter()]: the element, then its descendants, in document order. *)
Fixpoint iter (e : element) : list element :=
  match e with
  | Elem _ _ _ children => e :: flat_map iter children
  end.

(** Truth value of a value that is [None] or a [str]. *)
Definition opt_truthy (v : option string) : bool :=
  match v with
  | Some s => truthy s
  | None => false
  end.

(** [rec[key]], for a dict whose values are [None] or a [str]. *)
Definition item (rec : gmap string (option string)) (key : string)
  : option string :=
  match rec !! key with
  | Some v => v
  | None => None
  end.

(** The dict the function starts from. *)
Definition empty_record : gmap string (option string) :=
  <["abn" := None]> (<["entity_name" := None]> (<["entity_type" := None]> (
  <["entity_status" := None]> (<["address_line_1" := None]> (
  <["address_line_2" := None]> (<["suburb" := None]> (<["postcode" := None]> (
  <["state" := None]> (<["country" := Some "AU"]> (
  <["start_date_raw" := None]> ∅)))))))))).

(** [if v and not rec[key]: rec[key] = v]. *)
Definition set_first (rec : gmap string (option string)) (key : string)
    (v : option string) : gmap string (option string) :=
  if opt_truthy v && negb (opt_truthy (item rec key))
  then <[key := v]> rec else rec.

(** The same test on a local variable. *)
Definition first_of (cur v : option string) : option string :=
  if opt_truthy v && negb (opt_truthy cur) then v else cur.

(** The loop state: [rec], [main_name_candidate], [person_given_names]
    and [person_family_name]. *)
Record parsing := Parsing {
  rec : gmap string (option string);
  main_name_candidate : option string;
  person_given_names : list string;
  person_family_name : option string
}.

(** The body of [for child in abr_elem.iter()]. *)
Definition visit (st : parsing) (child : element) : parsing :=
  let tag := strip_ns (e_tag child) in
  let text :=
    strip (match e_text child with Some t => t | None => EmptyString end) in
  let attrib := e_attrib child in
  if String.eqb tag "ABN" then
    let r := set_first (rec st) "abn" (Some text) in
    let r := set_first r "entity_status" (attrib !! "status") in
    let r := set_first r "start_date_raw" (attrib !! "ABNStatusFromDate") in
    Parsing r (main_name_candidate st) (person_given_names st)
            (person_family_name st)
  else if String.eqb tag "EntityTypeText" then
    Parsing (set_first (rec st) "entity_type" (Some text))
            (main_name_candidate st) (person_given_names st)
            (person_family_name st)
  else if String.eqb tag "NonIndividualNameText" then
    Parsing (rec st) (first_of (main_name_candidate st) (Some text))
            (person_given_names st) (person_family_name st)
  else if String.eqb tag "GivenName" then
    Parsing (rec st) (main_name_candidate st)
            (if truthy text then person_given_names st ++ [text]
             else person_given_names st)
            (person_family_name st)
  else if String.eqb tag "FamilyName" then
    Parsing (rec st) (main_name_candidate st) (person_given_names st)
            (first_of (person_family_name st) (Some text))
  else if String.eqb tag "State" then
    Parsing (set_first (rec st) "state" (Some text))
            (main_name_candidate st) (person_given_names st)
            (person_family_name st)
  else if String.eqb tag "Postcode" then
    Parsing (set_first (rec st) "postcode" (Some text))
            (main_name_candidate st) (person_given_names st)
            (person_family_name st)
  else if String.eqb tag "GST" then
    Parsing (set_first (rec st) "start_date_raw" (attrib !! "GSTStatusFromDate"))
            (main_name_candidate st) (person_given_names st)
            (person_family_name st)
  else st.

(** The name decided after the loop. *)
Definition decide_name (st : parsing) : gmap string (option string) :=
  if opt_truthy (main_name_candidate st) then
    <["entity_name" := main_name_candidate st]> (rec st)
  else if negb (bool_decide (person_given_names st = []))
          || opt_truthy (person_family_name st) then
    let parts :=
      person_given_names st
      ++ match person_family_name st with
         | Some f => if truthy f then [f] else []
         | None => []
         end in
    <["entity_name" :=
        match parts with
        | [] => None
        | _ :: _ => Some (String.concat " " parts)
        end]> (rec st)
  else rec st.

Definition parse_abr_entity (abr_elem : element)
  : gmap string (option string) :=
  let start :=
    set_first empty_record "start_date_raw"
              (e_attrib abr_elem !! "recordLastUpdatedDate") in
  decide_name (fold_left visit (iter abr_elem) (Parsing start None [] None)).

(** The test of [iter_abr_records_from_xml] for yielding a record. *)
Definition is_yielded (r : gmap string (option string)) : bool :=
  opt_truthy (item r "abn") && opt_truthy (item r "entity_name").

(** The keys the loop can write. *)
Definition written_keys : list string :=
  ["abn"; "entity_status"; "start_date_raw"; "entity_type"; "state"; "postcode"].

(** The stripped text of an element and whether it names an organisation. *)
Definition text_of (e : element) : string :=
  strip (match e_text e with Some t => t | None => EmptyString end).

Definition names_organisation (e : element) : bool :=
  String.eqb (strip_ns (e_tag e)) "NonIndividualNameText" && truthy (text_of e).

End AbrXml.

(* ================================================================== *)
(** ** Sample registry records *)
(* ================================================================== *)

Module XmlSamples.
Import AbrXml.

Definition leaf (tag text : string) : element :=
  Elem tag ∅ (Some text) [].

Definition abn_node : element :=
  Elem "ABN" {[ "status" := "ACT"; "ABNStatusFromDate" := "20000101" ]}
       (Some "55447533728") [].

Definition org_name : element := leaf "NonIndividualNameText" " ACME PTY LTD ".

(** An organisation that also lists a person, in a namespace. *)
Definition org_record : element :=
  Elem "{urn:abr}ABR" {[ "recordLastUpdatedDate" := "20220512" ]} None
    [ abn_node;
      Elem "LegalEntity" ∅ None
        [ Elem "IndividualName" ∅ None
            [ leaf "GivenName" "JANE"; leaf "FamilyName" "DOE" ] ];
      Elem "MainEntity" ∅ None
        [ org_name;
          Elem "BusinessAddress" ∅ None
            [ leaf "State" "NSW"; leaf "Postcode" "2170" ] ];
      Elem "GST" {[ "GSTStatusFromDate" := "20120101" ]} None [] ].

(** An organisation whose first name element holds a no-break space
    only. *)
Definition spaced_record : element :=
  Elem "ABR" ∅ None
    [ abn_node;
      leaf "NonIndividualNameText" (Utf8.text_of_bytes [194; 160]);
      leaf "NonIndividualNameText" "ACME" ].

(** A sole trader: two given names and a family name, no update date. *)
Definition person_record : element :=
  Elem "ABR" ∅ None
    [ abn_node;
      Elem "LegalEntity" ∅ None
        [ Elem "IndividualName" ∅ None
            [ leaf "GivenName" "JANE"; leaf "GivenName" "MARY";
              leaf "FamilyName" "DOE" ] ] ].

End XmlSamples.

(* ================================================================== *)
(** * Properties *)
(* ================================================================== *)

(** ** Text decoded *)

Module Utf8Facts.
Import Utf8.

Lemma points_ascii (l : list ascii) :
  Forall (fun c => byte c < 128) l ->
  points l = map (fun c => (byte c, [c])) l.
Proof.
  induction 1 as [|a l Ha _ IH]; [reflexivity|].
  cbn [points map]. destruct (Z.ltb_spec (byte a) 128); [|lia].
  rewrite IH. reflexivity.
Qed.

Lemma code_points_ascii (l : list ascii) :
  Forall (fun c => byte c < 128) l ->
  code_points (string_of_list_ascii l) = map byte l.
Proof.
  intros Hl. unfold code_points.
  rewrite list_ascii_of_string_of_list_ascii, points_ascii by exact Hl.
  rewrite map_map. reflexivity.
Qed.

End Utf8Facts.

(** ** [parse_date_safe] *)

Module DateParseFacts.
Import Utf8 DateParse.

Lemma strptime_valid fmt s d :
  strptime fmt s = Returns d -> valid_date d = true.
Proof.
  unfold strptime.
  destruct (matches fmt start (chars s)) as [|[d' rest] tl]; [discriminate|].
  destruct rest; [|discriminate].
  destruct (valid_date d') eqn:Hv; [|discriminate].
  intros [= <-]. exact Hv.
Qed.

Lemma parse_date_body_some s d :
  parse_date_body s = Returns (Some d) <->
  (len s = 8%nat /\ isdigit s = true
     /\ strptime fmt_compact s = Returns d)
  \/ (len s = 10%nat /\ contains dash s = true
     /\ strptime fmt_dashed s = Returns d).
Proof.
  unfold parse_date_body.
  destruct (Nat.eqb_spec (len s) 8) as [H8|H8];
    destruct (Nat.eqb_spec (len s) 10) as [H10|H10];
    try (exfalso; lia); simpl.
  - destruct (isdigit s) eqn:Hd; simpl.
    + destruct (strptime fmt_compact s) as [d'|] eqn:Hp.
      * split.
        -- intros [= <-]. left. auto.
        -- intros [(_ & _ & [= <-])|(Hl & _)]; [reflexivity | lia].
      * split; [discriminate|].
        intros [(_ & _ & ?)|(Hl & _)]; [discriminate | lia].
    + split; [discriminate|].
      intros [(_ & ? & _)|(Hl & _)]; [discriminate | lia].
  - destruct (contains dash s) eqn:Hc; simpl.
    + destruct (strptime fmt_dashed s) as [d'|] eqn:Hp.
      * split.
        -- intros [= <-]. right. auto.
        -- intros [(Hl & _)|(_ & _ & [= <-])]; [lia | reflexivity].
      * split; [discriminate|].
        intros [(Hl & _)|(_ & _ & ?)]; [lia | discriminate].
    + split; [discriminate|].
      intros [(Hl & _)|(_ & ? & _)]; [lia | discriminate].
  - split; [discriminate|].
    intros [(Hl & _)|(Hl & _)]; lia.
Qed.

(** On a text the truth test cannot raise and the [try] catches the rest. *)
Lemma parse_date_safe_text s :
  exists r, parse_date_safe (VText s) = Returns r.
Proof.
  unfold parse_date_safe. destruct s as [|c s']; cbn [truth str].
  - eauto.
  - destruct (parse_date_body (String c s')); eauto.
Qed.

Lemma parse_date_safe_text_some s d :
  parse_date_safe (VText s) = Returns (Some d)
  <-> parse_date_body s = Returns (Some d).
Proof.
  unfold parse_date_safe. destruct s as [|c s']; cbn [truth str].
  - split; [discriminate|]. vm_compute. discriminate.
  - destruct (parse_date_body (String c s')) as [r|].
    + split; [intros [= ->]; reflexivity | intros [= ->]; reflexivity].
    + split; discriminate.
Qed.

Example parse_compact :
  parse_date_safe (VText "20200131") = Returns (Some (Date 2020 1 31)).
Proof. vm_compute. reflexivity. Qed.

Example parse_dashed_leap :
  parse_date_safe (VText "2020-02-29") = Returns (Some (Date 2020 2 29)).
Proof. vm_compute. reflexivity. Qed.

Example parse_no_such_day : parse_date_safe (VText "20210229") = Returns None.
Proof. vm_compute. reflexivity. Qed.

Example parse_year_zero : parse_date_safe (VText "00000101") = Returns None.
Proof. vm_compute. reflexivity. Qed.

Example parse_other_shape : parse_date_safe (VText "01/02/2020") = Returns None.
Proof. vm_compute. reflexivity. Qed.

Example parse_short : parse_date_safe (VText "2020-1-1") = Returns None.
Proof. vm_compute. reflexivity. Qed.

Example parse_month_13 : parse_date_safe (VText "2020-13-01") = Returns None.
Proof. vm_compute. reflexivity. Qed.

(** [%d] also takes a day padded with a space. *)
Example parse_space_padded_day :
  parse_date_safe (VText "2020-01- 5") = Returns (Some (Date 2020 1 5)).
Proof. vm_compute. reflexivity. Qed.

(** Decimal digits of another script count as characters and as digits. *)
Example parse_fullwidth_year :
  len DateText.fullwidth_2020_0131 = 8%nat
  /\ parse_date_safe (VText DateText.fullwidth_2020_0131)
     = Returns (Some (Date 2020 1 31)).
Proof. split; vm_compute; reflexivity. Qed.

(** Superscript two is a digit for [isdigit] and not for [\d]. *)
Example parse_superscript :
  isdigit (text_of_bytes [194; 178]) = true
  /\ is_decimal 178 = false.
Proof. split; vm_compute; reflexivity. Qed.

(** [None] and the integer 0 are falsy; another integer is read through
    its decimal text. *)
Example parse_none : parse_date_safe VNone = Returns None.
Proof. reflexivity. Qed.

Example parse_int :
  parse_date_safe (VInt 20200131) = Returns (Some (Date 2020 1 31))
  /\ parse_date_safe (VInt 0) = Returns None
  /\ parse_date_safe (VInt 7) = Returns None.
Proof. repeat split; vm_compute; reflexivity. Qed.

(** C10, as the code has it. On every text [parse_date_safe] returns, a
    date or [None], and does not raise: the exceptions of the [try] block are
    turned into [None]. It returns a date exactly when the text has 8
    characters, all digits, and parses under [%Y%m%d], or has 10
    characters, a dash among them, and parses under [%Y-%m-%d]; the date is
    then a calendar date. The empty text and every other text give
    [None]. *)
Theorem parse_date_safe_total_and_gated (s : string) :
  (exists r, parse_date_safe (VText s) = Returns r)
  /\ parse_date_safe (VText EmptyString) = Returns None
  /\ (forall d, parse_date_safe (VText s) = Returns (Some d) <->
        (len s = 8%nat /\ isdigit s = true
           /\ strptime fmt_compact s = Returns d)
        \/ (len s = 10%nat /\ contains dash s = true
           /\ strptime fmt_dashed s = Returns d))
  /\ (forall d, parse_date_safe (VText s) = Returns (Some d) ->
        valid_date d = true)
  /\ ((forall d, ~ (len s = 8%nat /\ isdigit s = true
                     /\ strptime fmt_compact s = Returns d)
                 /\ ~ (len s = 10%nat /\ contains dash s = true
                       /\ strptime fmt_dashed s = Returns d)) ->
      parse_date_safe (VText s) = Returns None).
Proof.
  assert (Hiff : forall d, parse_date_safe (VText s) = Returns (Some d) <->
        (len s = 8%nat /\ isdigit s = true
           /\ strptime fmt_compact s = Returns d)
        \/ (len s = 10%nat /\ contains dash s = true
           /\ strptime fmt_dashed s = Returns d)).
  { intros d. rewrite <- parse_date_body_some. apply parse_date_safe_text_some. }
  split; [apply parse_date_safe_text|].
  split; [reflexivity|]. split; [exact Hiff|]. split.
  - intros d Hd. apply Hiff in Hd.
    destruct Hd as [(_ & _ & Hp)|(_ & _ & Hp)]; eapply strptime_valid; eauto.
  - intros Hnone. destruct (parse_date_safe_text s) as [[d|] Hr];
      [|exact Hr].
    exfalso. destruct (Hnone d) as [H8 H10].
    apply Hiff in Hr as [H|H]; [apply H8, H | apply H10, H].
Qed.

(** C10, counterexample. The missing-value marker is an input on which
    the call raises: its truth test, on the first line of the function,
    stands before the [try]. *)
Lemma missing_value_raises :
  parse_date_safe VNA = Raises
  /\ ~ (exists r, parse_date_safe VNA = Returns r).
Proof. split; [reflexivity|]. intros [r Hr]. discriminate. Qed.

End DateParseFacts.

(** ** The matcher and the classifier *)

Module MatcherFacts.
Import Text Matcher.

Lemma df_empty_false (df : list staged_row) (m : staged_row) :
  m ∈ df -> m ≠ ∅ -> df_empty df = false.
Proof.
  intros Hin Hne. unfold df_empty.
  apply not_true_is_false. intros Hall.
  rewrite forallb_forall in Hall.
  specialize (Hall m (proj1 (list_elem_of_In _ _) Hin)).
  apply bool_decide_eq_true in Hall. contradiction.
Qed.

Lemma named_row_not_empty (m : staged_row) (k : string) :
  truthy (strip (get_or_empty (fillna_row m) k)) = true -> m ≠ ∅.
Proof.
  intros Ht ->. unfold get_or_empty, fillna_row in Ht.
  rewrite lookup_fmap, lookup_empty in Ht. discriminate.
Qed.

Section Scorer.
Variable ratio : string -> string -> Qc.

(** *** The inner loop *)

Lemma best_step_skip name st e :
  truthy (abr_name_of e) = false -> best_step ratio name st e = st.
Proof. unfold best_step. intros ->. reflexivity. Qed.

Lemma best_step_take name st e :
  eligible e -> (fst st < ratio name (abr_name_of e))%Qc ->
  best_step ratio name st e = (ratio name (abr_name_of e), Some e).
Proof.
  unfold best_step. intros -> Hlt. simpl.
  rewrite bool_decide_eq_true_2; auto.
Qed.

Lemma best_step_keep name st e :
  eligible e -> (ratio name (abr_name_of e) <= fst st)%Qc ->
  best_step ratio name st e = st.
Proof.
  unfold best_step. intros -> Hle. simpl.
  rewrite bool_decide_eq_false_2; auto.
  intros Hlt. exact (Qclt_not_le _ _ Hlt Hle).
Qed.

(** Either no eligible row beats the score held on entry and the state is
    unchanged, or the state holds the first row of the list that reaches
    the greatest score among the eligible ones. *)
Lemma best_loop name (l : list (gmap string string)) :
  forall st,
    ((forall x, x ∈ l -> eligible x ->
        (ratio name (abr_name_of x) <= fst st)%Qc)
     /\ fold_left (best_step ratio name) l st = st)
    \/ exists pre e post,
         l = pre ++ e :: post /\ eligible e
         /\ fold_left (best_step ratio name) l st
            = (ratio name (abr_name_of e), Some e)
         /\ (fst st < ratio name (abr_name_of e))%Qc
         /\ (forall x, x ∈ pre -> eligible x ->
               (ratio name (abr_name_of x) < ratio name (abr_name_of e))%Qc)
         /\ (forall x, x ∈ post -> eligible x ->
               (ratio name (abr_name_of x) <= ratio name (abr_name_of e))%Qc).
Proof.
  induction l as [|x l IH]; intros st.
  - left. split; [|reflexivity]. intros y Hy. inversion Hy.
  - simpl. destruct (truthy (abr_name_of x)) eqn:Hx.
    + destruct (Qclt_le_dec (fst st) (ratio name (abr_name_of x))) as [Hlt|Hle].
      * rewrite (best_step_take name st x Hx Hlt).
        destruct (IH (ratio name (abr_name_of x), Some x))
          as [[Hall Heq]|(pre & e & post & -> & He & Heq & Hgt & Hpre & Hpost)].
        -- right. exists [], x, l. simpl in Hall.
           repeat split; auto. intros y Hy. inversion Hy.
        -- right. exists (x :: pre), e, post. simpl in Hgt.
           repeat split; auto.
           ++ eapply Qclt_trans; eauto.
           ++ intros y Hy Hey. apply elem_of_cons in Hy as [->|Hy]; auto.
      * rewrite (best_step_keep name st x Hx Hle).
        destruct (IH st)
          as [[Hall Heq]|(pre & e & post & -> & He & Heq & Hgt & Hpre & Hpost)].
        -- left. split; auto.
           intros y Hy Hey. apply elem_of_cons in Hy as [->|Hy]; auto.
        -- right. exists (x :: pre), e, post.
           repeat split; auto.
           intros y Hy Hey. apply elem_of_cons in Hy as [->|Hy]; auto.
           eapply Qcle_lt_trans; eauto.
    + rewrite (best_step_skip name st x Hx).
      destruct (IH st)
        as [[Hall Heq]|(pre & e & post & -> & He & Heq & Hgt & Hpre & Hpost)].
      * left. split; auto.
        intros y Hy Hey. apply elem_of_cons in Hy as [->|Hy]; auto.
        congruence.
      * right. exists (x :: pre), e, post.
        repeat split; auto.
        intros y Hy Hey. apply elem_of_cons in Hy as [->|Hy]; auto.
        congruence.
Qed.

(** With no eligible row the loop ends as it started. *)
Lemma best_match_none name (l : list (gmap string string)) :
  (forall x, x ∈ l -> truthy (abr_name_of x) = false) ->
  best_match ratio name l = ((-1)%Qc, None).
Proof.
  unfold best_match. generalize ((-1)%Qc, @None (gmap string string)).
  induction l as [|x l IH]; intros st Hall; [reflexivity|].
  simpl. rewrite best_step_skip by (apply Hall; left).
  apply IH. intros y Hy. apply Hall. right. exact Hy.
Qed.

(** *** The outer loop *)

Lemma match_step_acc abr_df acc r :
  match_step ratio abr_df acc r
  = (fst acc ++ fst (match_step ratio abr_df ([], []) r),
     snd acc ++ snd (match_step ratio abr_df ([], []) r)).
Proof.
  unfold match_step. destruct acc as [amb unm]. simpl.
  destruct (truthy (cc_name_of r)); simpl.
  - destruct (best_match ratio (cc_name_of r) abr_df) as [s [e|]]; simpl;
      rewrite ?app_nil_r; reflexivity.
  - rewrite ?app_nil_r; reflexivity.
Qed.

Lemma match_loop abr_df (cc_df : list (gmap string string)) :
  forall acc,
    fold_left (match_step ratio abr_df) cc_df acc
    = (fst acc ++ flat_map (fun r => fst (match_step ratio abr_df ([], []) r)) cc_df,
       snd acc ++ flat_map (fun r => snd (match_step ratio abr_df ([], []) r)) cc_df).
Proof.
  induction cc_df as [|r l IH]; intros acc; simpl.
  - rewrite !app_nil_r. destruct acc; reflexivity.
  - rewrite IH, (match_step_acc abr_df acc r). simpl.
    rewrite <- !app_assoc. reflexivity.
Qed.

Lemma fuzzy_match_nonempty abr_df cc_df hi lo :
  df_empty abr_df = false -> df_empty cc_df = false ->
  fuzzy_match_entities ratio abr_df cc_df hi lo
  = ([],
     flat_map (fun r => fst (match_step ratio (fillna abr_df) ([], []) r))
              (fillna cc_df),
     flat_map (fun r => snd (match_step ratio (fillna abr_df) ([], []) r))
              (fillna cc_df)).
Proof.
  intros Ha Hc. unfold fuzzy_match_entities. rewrite Ha, Hc. simpl.
  rewrite match_loop. reflexivity.
Qed.

(** What one web row contributes to the two buckets. *)
Lemma match_step_cases abr_df r :
  (truthy (cc_name_of r) = false
   /\ match_step ratio abr_df ([], []) r = ([], [r]))
  \/ (truthy (cc_name_of r) = true
      /\ exists s, best_match ratio (cc_name_of r) abr_df = (s, None)
      /\ match_step ratio abr_df ([], []) r = ([], [r]))
  \/ (truthy (cc_name_of r) = true
      /\ exists s e, best_match ratio (cc_name_of r) abr_df = (s, Some e)
      /\ match_step ratio abr_df ([], []) r
         = ([Candidate r e s "fuzzy_name_ambiguous"], [])).
Proof.
  unfold match_step.
  destruct (truthy (cc_name_of r)); simpl; [|left; auto].
  right. destruct (best_match ratio (cc_name_of r) abr_df) as [s [e|]].
  - right. split; [reflexivity|]. exists s, e. auto.
  - left. split; [reflexivity|]. exists s. auto.
Qed.

Lemma in_ambiguous abr_df (cc_df : list (gmap string string)) c :
  c ∈ flat_map (fun r => fst (match_step ratio abr_df ([], []) r)) cc_df <->
  exists r s e,
    r ∈ cc_df /\ truthy (cc_name_of r) = true
    /\ best_match ratio (cc_name_of r) abr_df = (s, Some e)
    /\ c = Candidate r e s "fuzzy_name_ambiguous".
Proof.
  rewrite list_elem_of_In, in_flat_map. split.
  - intros (r & Hr & Hc). apply list_elem_of_In in Hr, Hc.
    destruct (match_step_cases abr_df r)
      as [(_ & Heq)|[(_ & s & _ & Heq)|(Ht & s & e & Hb & Heq)]];
      rewrite Heq in Hc; simpl in Hc.
    + inversion Hc.
    + inversion Hc.
    + apply list_elem_of_singleton in Hc. exists r, s, e. auto.
  - intros (r & s & e & Hr & Ht & Hb & ->).
    exists r. split; [apply list_elem_of_In; exact Hr|].
    unfold match_step. rewrite Ht, Hb. simpl. auto.
Qed.

Lemma in_unmatched abr_df (cc_df : list (gmap string string)) r :
  r ∈ flat_map (fun r => snd (match_step ratio abr_df ([], []) r)) cc_df <->
  r ∈ cc_df
  /\ (truthy (cc_name_of r) = false
      \/ snd (best_match ratio (cc_name_of r) abr_df) = None).
Proof.
  rewrite list_elem_of_In, in_flat_map. split.
  - intros (r' & Hr & Hc). apply list_elem_of_In in Hr, Hc.
    destruct (match_step_cases abr_df r')
      as [(Ht & Heq)|[(_ & s & Hb & Heq)|(_ & s & e & _ & Heq)]];
      rewrite Heq in Hc; simpl in Hc.
    + apply list_elem_of_singleton in Hc as ->. auto.
    + apply list_elem_of_singleton in Hc as ->. rewrite Hb. auto.
    + inversion Hc.
  - intros (Hr & Hcase). exists r.
    split; [apply list_elem_of_In; exact Hr|].
    unfold match_step.
    destruct (truthy (cc_name_of r)); simpl; [|auto].
    destruct Hcase as [?|Hb]; [discriminate|].
    destruct (best_match ratio (cc_name_of r) abr_df) as [s [e|]];
      simpl in *; [discriminate | auto].
Qed.

Lemma fillna_elem (df : list staged_row) (m : staged_row) :
  m ∈ df -> fillna_row m ∈ fillna df.
Proof.
  intros Hm. unfold fillna. apply list_elem_of_In, in_map, list_elem_of_In, Hm.
Qed.

Lemma minus_one_below (q : Qc) : (0 <= q)%Qc -> ~ (q <= -1)%Qc.
Proof.
  intros H0 H1. assert (Hlt : (-1 < 0)%Qc) by reflexivity.
  exact (Qclt_not_le _ _ Hlt (Qcle_trans _ _ _ H0 H1)).
Qed.

(** C7. For a mention with a non-empty normalised name and a registry
    holding at least one entity with a non-empty name, the matcher emits
    the candidate built on the eligible entity of greatest score; among
    entities of equal greatest score it is the first in registry order
    (every eligible entity before it scores strictly less, every one after
    it scores no more). The mention yields this candidate only and is not
    reported as unmatched. Scores are non-negative, as those of
    [token_sort_ratio] are. *)
Theorem best_entity_first_wins abr_df cc_df hi lo (m : staged_row) :
  (forall a b, (0 <= ratio a b)%Qc) ->
  m ∈ cc_df ->
  truthy (cc_name_of (fillna_row m)) = true ->
  (exists e0, e0 ∈ abr_df /\ eligible (fillna_row e0)) ->
  exists pre e post,
    fillna abr_df = pre ++ e :: post
    /\ eligible e
    /\ (forall x, x ∈ pre -> eligible x ->
          (ratio (cc_name_of (fillna_row m)) (abr_name_of x)
           < ratio (cc_name_of (fillna_row m)) (abr_name_of e))%Qc)
    /\ (forall x, x ∈ post -> eligible x ->
          (ratio (cc_name_of (fillna_row m)) (abr_name_of x)
           <= ratio (cc_name_of (fillna_row m)) (abr_name_of e))%Qc)
    /\ let c := Candidate (fillna_row m) e
                  (ratio (cc_name_of (fillna_row m)) (abr_name_of e))
                  "fuzzy_name_ambiguous" in
       let '(_, ambiguous, unmatched) :=
         fuzzy_match_entities ratio abr_df cc_df hi lo in
       c ∈ ambiguous
       /\ (forall c', c' ∈ ambiguous -> cc c' = fillna_row m -> c' = c)
       /\ fillna_row m ∉ unmatched.
Proof.
  intros Hpos Hm Hname (e0 & He0 & Hel0).
  rewrite fuzzy_match_nonempty;
    [| eapply df_empty_false, named_row_not_empty; eauto
     | eapply df_empty_false, named_row_not_empty; eauto ].
  set (name := cc_name_of (fillna_row m)) in *.
  destruct (best_loop name (fillna abr_df) ((-1)%Qc, None))
    as [[Hall _]|(pre & e & post & Hsplit & He & Hfold & _ & Hpre & Hpost)].
  { exfalso. apply (minus_one_below (ratio name (abr_name_of (fillna_row e0)))).
    - apply Hpos.
    - apply (Hall (fillna_row e0)); [apply fillna_elem|]; assumption. }
  exists pre, e, post. repeat split; auto.
  - apply in_ambiguous. exists (fillna_row m), (ratio name (abr_name_of e)), e.
    repeat split; auto. apply fillna_elem, Hm.
  - intros c' Hc' Hcc. apply in_ambiguous in Hc'
      as (r & s & e' & _ & _ & Hb & ->). simpl in Hcc. subst r.
    fold name in Hb. unfold best_match in Hb. rewrite Hfold in Hb.
    injection Hb as <- <-. reflexivity.
  - intros Hun. apply in_unmatched in Hun as (_ & [Ht|Hb]).
    + fold name in Ht. congruence.
    + fold name in Hb. unfold best_match in Hb. rewrite Hfold in Hb.
      discriminate.
Qed.

Lemma fuzzy_match_guard abr_df cc_df hi lo :
  df_empty abr_df = true \/ df_empty cc_df = true ->
  fuzzy_match_entities ratio abr_df cc_df hi lo = ([], [], []).
Proof.
  unfold fuzzy_match_entities. intros [-> | ->]; [reflexivity|].
  rewrite orb_true_r. reflexivity.
Qed.

(** C2, as the code has it. Whatever the two thresholds, the auto-accept
    bucket is empty, the result is the one any other pair of thresholds
    gives, and every candidate, whatever its score, is placed in the
    needs-adjudication bucket with the tag [fuzzy_name_ambiguous]; the
    candidates scoring between the low and the high threshold are among
    them. *)
Theorem classifier_adjudicates_everything abr_df cc_df hi lo hi' lo' :
  let '(high, ambiguous, unmatched) :=
    fuzzy_match_entities ratio abr_df cc_df hi lo in
  high = []
  /\ fuzzy_match_entities ratio abr_df cc_df hi' lo' = (high, ambiguous, unmatched)
  /\ (forall c, c ∈ ambiguous -> method c = "fuzzy_name_ambiguous")
  /\ (df_empty abr_df = false -> df_empty cc_df = false ->
      forall m s e,
        m ∈ fillna cc_df -> truthy (cc_name_of m) = true ->
        best_match ratio (cc_name_of m) (fillna abr_df) = (s, Some e) ->
        Candidate m e s "fuzzy_name_ambiguous" ∈ ambiguous).
Proof.
  destruct (df_empty abr_df || df_empty cc_df) eqn:Hguard.
  - apply orb_true_iff in Hguard.
    rewrite !fuzzy_match_guard by exact Hguard.
    repeat split; auto.
    + intros c Hc. inversion Hc.
    + intros Ha Hc. destruct Hguard; congruence.
  - apply orb_false_iff in Hguard as [Ha Hc].
    rewrite !fuzzy_match_nonempty by assumption.
    repeat split; auto.
    + intros c Hin. apply in_ambiguous in Hin as (r & s & e & _ & _ & _ & ->).
      reflexivity.
    + intros _ _ m s e Hm Ht Hb. apply in_ambiguous. exists m, s, e. auto.
Qed.

Lemma flat_map_singleton {A} (f : A -> list A) (l : list A) :
  (forall x, x ∈ l -> f x = [x]) -> flat_map f l = l.
Proof.
  induction l as [|x l IH]; intros Hf; [reflexivity|].
  simpl. rewrite (Hf x) by left. simpl. f_equal.
  apply IH. intros y Hy. apply Hf. right. exact Hy.
Qed.

Lemma flat_map_nil {A B} (f : A -> list B) (l : list A) :
  (forall x, x ∈ l -> f x = []) -> flat_map f l = [].
Proof.
  induction l as [|x l IH]; intros Hf; [reflexivity|].
  simpl. rewrite (Hf x) by left. simpl.
  apply IH. intros y Hy. apply Hf. right. exact Hy.
Qed.

(** C8, as the code has it. When either collection is empty the matcher
    returns three empty buckets and emits no mention at all. When neither
    is empty: a mention whose stripped normalised name is empty goes to
    the unmatched bucket by a step that consults no scorer, and when every
    registry entity has an empty name the unmatched bucket is the whole
    mention collection, in order, and the other two buckets are empty. The
    function is total: no case raises. *)
Theorem nameless_rows_unmatched abr_df cc_df hi lo :
  (df_empty abr_df = true \/ df_empty cc_df = true ->
   fuzzy_match_entities ratio abr_df cc_df hi lo = ([], [], []))
  /\ (df_empty abr_df = false -> df_empty cc_df = false ->
      let '(high, ambiguous, unmatched) :=
        fuzzy_match_entities ratio abr_df cc_df hi lo in
      (forall m, m ∈ fillna cc_df -> truthy (cc_name_of m) = false ->
         m ∈ unmatched
         /\ (forall c, c ∈ ambiguous -> cc c <> m)
         /\ forall ratio' acc,
              match_step ratio' (fillna abr_df) acc m
              = (fst acc, snd acc ++ [m]))
      /\ ((forall e, e ∈ fillna abr_df -> truthy (abr_name_of e) = false) ->
          high = [] /\ ambiguous = [] /\ unmatched = fillna cc_df)).
Proof.
  split; [apply fuzzy_match_guard|].
  intros Ha Hc. rewrite fuzzy_match_nonempty by assumption.
  split.
  - intros m Hm Ht. repeat split.
    + apply in_unmatched. auto.
    + intros c Hin Hcc. apply in_ambiguous in Hin
        as (r & s & e & _ & Hr & _ & ->). simpl in Hcc. congruence.
    + intros ratio' acc. unfold match_step. rewrite Ht. reflexivity.
  - intros Hall. split; [reflexivity|]. split.
    + apply flat_map_nil. intros r _. unfold match_step.
      destruct (truthy (cc_name_of r)); simpl; [|reflexivity].
      rewrite best_match_none by exact Hall. reflexivity.
    + apply flat_map_singleton. intros r _. unfold match_step.
      destruct (truthy (cc_name_of r)); simpl; [|reflexivity].
      rewrite best_match_none by exact Hall. reflexivity.
Qed.

End Scorer.

Import Samples.

Lemma same_name_ratio_nonneg a b : (0 <= same_name_ratio a b)%Qc.
Proof. unfold same_name_ratio. destruct (String.eqb a b); discriminate. Qed.

(** The tie-break on a pool of two entities with equal scores: the first
    one is selected. *)
Example tie_goes_to_first :
  fuzzy_match_entities same_name_ratio [acme_abr; acme_abr_twin] [acme_cc] 90 75
  = ([], [acme_pair], []).
Proof. vm_compute. reflexivity. Qed.

Example tie_goes_to_first_swapped :
  fuzzy_match_entities same_name_ratio [acme_abr_twin; acme_abr] [acme_cc] 90 75
  = ([], [acme_pair_twin], []).
Proof. vm_compute. reflexivity. Qed.

(** The end-to-end scenario of the matcher: the named mention pairs with
    the registry entity at score 100, the blank one is unmatched. *)
Example named_and_blank :
  fuzzy_match_entities same_name_ratio [acme_abr] [acme_cc; blank_cc] 95 0
  = ([], [acme_pair], [fillna_row blank_cc]).
Proof. vm_compute. reflexivity. Qed.

(** A no-break space is whitespace for [strip]: a mention so named is
    unmatched, and a registry entity so named is not compared. *)
Example no_break_space_is_blank :
  fuzzy_match_entities same_name_ratio [acme_abr] [nbsp_cc] 95 0
  = ([], [], [fillna_row nbsp_cc])
  /\ fuzzy_match_entities same_name_ratio [nbsp_abr] [acme_cc] 95 0
     = ([], [], [fillna_row acme_cc]).
Proof. split; vm_compute; reflexivity. Qed.

Lemma best_entity_first_wins_witness :
  exists pre e post,
    fillna [acme_abr; acme_abr_twin] = pre ++ e :: post
    /\ eligible e
    /\ (forall x, x ∈ pre -> eligible x ->
          (same_name_ratio (cc_name_of (fillna_row acme_cc)) (abr_name_of x)
           < same_name_ratio (cc_name_of (fillna_row acme_cc)) (abr_name_of e))%Qc)
    /\ (forall x, x ∈ post -> eligible x ->
          (same_name_ratio (cc_name_of (fillna_row acme_cc)) (abr_name_of x)
           <= same_name_ratio (cc_name_of (fillna_row acme_cc)) (abr_name_of e))%Qc)
    /\ let c := Candidate (fillna_row acme_cc) e
                  (same_name_ratio (cc_name_of (fillna_row acme_cc)) (abr_name_of e))
                  "fuzzy_name_ambiguous" in
       let '(_, ambiguous, unmatched) :=
         fuzzy_match_entities same_name_ratio [acme_abr; acme_abr_twin]
                              [acme_cc] 90 75 in
       c ∈ ambiguous
       /\ (forall c', c' ∈ ambiguous -> cc c' = fillna_row acme_cc -> c' = c)
       /\ fillna_row acme_cc ∉ unmatched.
Proof.
  apply (best_entity_first_wins same_name_ratio
           [acme_abr; acme_abr_twin] [acme_cc] 90 75 acme_cc).
  - exact same_name_ratio_nonneg.
  - left.
  - vm_compute. reflexivity.
  - exists acme_abr. split; [left | vm_compute; reflexivity].
Defined.

(** C2, counterexample. With thresholds 90 and 75 the pair of identical
    names scores 100, at least the high threshold, and still lands in the
    needs-adjudication bucket while the auto-accept bucket is empty. *)
Lemma high_score_not_auto_accepted :
  (75 <= 90)%Z
  /\ (Qc_of_Z 90 <= score acme_pair)%Qc
  /\ fuzzy_match_entities same_name_ratio [acme_abr] [acme_cc] 90 75
     = ([], [acme_pair], []).
Proof.
  split; [lia|]. split; [discriminate|]. vm_compute. reflexivity.
Qed.

Lemma classifier_adjudicates_everything_witness :
  Candidate (fillna_row acme_cc) (fillna_row acme_abr) (Qc_of_Z 100)
            "fuzzy_name_ambiguous"
  ∈ snd (fst (fuzzy_match_entities same_name_ratio [acme_abr] [acme_cc] 90 75)).
Proof.
  pose proof (classifier_adjudicates_everything same_name_ratio
                [acme_abr] [acme_cc] 90 75 90 75) as H.
  destruct (fuzzy_match_entities same_name_ratio [acme_abr] [acme_cc] 90 75)
    as [[high ambiguous] unmatched].
  destruct H as (_ & _ & _ & H). simpl.
  apply H.
  - vm_compute. reflexivity.
  - vm_compute. reflexivity.
  - left.
  - vm_compute. reflexivity.
  - vm_compute. reflexivity.
Defined.

(** C8, counterexample. Against an empty registry the mention with a blank
    name is not routed to the unmatched bucket: the matcher returns three
    empty buckets. *)
Lemma blank_mention_dropped_without_registry :
  truthy (cc_name_of (fillna_row blank_cc)) = false
  /\ fuzzy_match_entities same_name_ratio [] [blank_cc] 90 75 = ([], [], [])
  /\ fillna_row blank_cc
     ∉ snd (fuzzy_match_entities same_name_ratio [] [blank_cc] 90 75).
Proof.
  split; [vm_compute; reflexivity|]. split; [vm_compute; reflexivity|].
  intros H. vm_compute in H. inversion H.
Qed.

Lemma nameless_rows_unmatched_witness :
  fuzzy_match_entities same_name_ratio [nameless_abr] [acme_cc; blank_cc] 90 75
  = ([], [], fillna [acme_cc; blank_cc])
  /\ fillna_row blank_cc
     ∈ snd (fuzzy_match_entities same_name_ratio [acme_abr] [acme_cc; blank_cc] 90 75).
Proof.
  split.
  - pose proof (proj2 (nameless_rows_unmatched same_name_ratio
                  [nameless_abr] [acme_cc; blank_cc] 90 75)) as H.
    destruct (fuzzy_match_entities same_name_ratio [nameless_abr]
                [acme_cc; blank_cc] 90 75) as [[high ambiguous] unmatched].
    destruct H as (_ & H); [vm_compute; reflexivity | vm_compute; reflexivity |].
    destruct H as (-> & -> & ->); [|reflexivity].
    intros e He. apply list_elem_of_singleton in He as ->.
    vm_compute. reflexivity.
  - pose proof (proj2 (nameless_rows_unmatched same_name_ratio
                  [acme_abr] [acme_cc; blank_cc] 90 75)) as H.
    destruct (fuzzy_match_entities same_name_ratio [acme_abr]
                [acme_cc; blank_cc] 90 75) as [[high ambiguous] unmatched].
    destruct H as (H & _); [vm_compute; reflexivity | vm_compute; reflexivity |].
    simpl. apply (H (fillna_row blank_cc)).
    + right. left.
    + vm_compute. reflexivity.
Defined.

End MatcherFacts.

(** ** The oracle client *)

Module ReviewFacts.
Import Text Matcher Review.

Section Oracle.
Variable oracle : nat -> string -> reply.

(** *** One item *)

Lemma review_item_calls w approved amb :
  calls (fst (review_item oracle (w, approved) amb))
  = calls w ++ [build_llm_prompt amb].
Proof.
  unfold review_item.
  destruct (oracle (length (calls w)) (build_llm_prompt amb)) as [|content parsed];
    [reflexivity|].
  destruct (decide_match parsed) as [[|]|]; reflexivity.
Qed.

Lemma review_item_approved w approved amb :
  snd (review_item oracle (w, approved) amb)
  = approved
    ++ map retag (accepted_from oracle (length (calls w)) [amb]).
Proof.
  unfold review_item. simpl.
  destruct (oracle (length (calls w)) (build_llm_prompt amb)) as [|content parsed];
    simpl; [rewrite app_nil_r; reflexivity|].
  destruct (decide_match parsed) as [[|]|]; simpl;
    rewrite ?app_nil_r; reflexivity.
Qed.

Lemma review_item_log w approved amb :
  exists entries,
    audit_log (fst (review_item oracle (w, approved) amb))
    = audit_log w ++ entries.
Proof.
  unfold review_item.
  destruct (oracle (length (calls w)) (build_llm_prompt amb)) as [|content parsed].
  - exists []. simpl. rewrite app_nil_r. reflexivity.
  - exists [(build_llm_prompt amb, content)].
    destruct (decide_match parsed) as [[|]|]; reflexivity.
Qed.

(** *** The loop *)

Lemma accepted_from_app base (l1 l2 : list candidate) :
  accepted_from oracle base (l1 ++ l2)
  = accepted_from oracle base l1
    ++ accepted_from oracle (base + length l1) l2.
Proof.
  revert base. induction l1 as [|amb l1 IH]; intros base; simpl.
  - rewrite Nat.add_0_r. reflexivity.
  - rewrite IH, <- Nat.add_succ_comm.
    destruct (oracle base (build_llm_prompt amb)) as [|content parsed];
      [reflexivity|].
    destruct (decide_match parsed) as [[|]|]; reflexivity.
Qed.

Lemma accepted_from_sublist base (l : list candidate) :
  accepted_from oracle base l `sublist_of` l.
Proof.
  revert base. induction l as [|amb l IH]; intros base; simpl.
  - constructor.
  - destruct (oracle base (build_llm_prompt amb)) as [|content parsed].
    + apply sublist_cons, IH.
    + destruct (decide_match parsed) as [[|]|].
      * apply sublist_skip, IH.
      * apply sublist_cons, IH.
      * apply sublist_cons, IH.
Qed.

Lemma review_loop (items : list candidate) :
  forall w approved,
    let r := fold_left (review_item oracle) items (w, approved) in
    snd r = approved ++ map retag (accepted_from oracle (length (calls w)) items)
    /\ calls (fst r) = calls w ++ map build_llm_prompt items
    /\ exists entries, audit_log (fst r) = audit_log w ++ entries.
Proof.
  induction items as [|amb items IH]; intros w approved.
  - simpl. rewrite !app_nil_r. split; [reflexivity|]. split; [reflexivity|].
    exists []. rewrite app_nil_r. reflexivity.
  - cbn [fold_left].
    pose proof (review_item_calls w approved amb) as Hc.
    pose proof (review_item_approved w approved amb) as Ha.
    destruct (review_item_log w approved amb) as [e1 He1].
    destruct (review_item oracle (w, approved) amb) as [w1 approved1].
    simpl in Hc, Ha, He1.
    destruct (IH w1 approved1) as (Hs & Hcalls & e2 & He2).
    cbv zeta. rewrite Hs, Hcalls, He2, Hc, Ha, He1.
    rewrite length_app. simpl length.
    replace (length (calls w) + 1)%nat with (S (length (calls w))) by lia.
    change (amb :: items) with ([amb] ++ items).
    rewrite (accepted_from_app _ [amb] items), map_app.
    simpl length. rewrite Nat.add_1_r, <- !app_assoc.
    split; [reflexivity|]. split; [reflexivity|].
    exists (e1 ++ e2). reflexivity.
Qed.

(** *** The whole function, oracle available *)

Lemma review_available cfg (l : list candidate) K w :
  client_available cfg = true -> api_key_set cfg = true ->
  let to_review := slice_to K l in
  let approved :=
    map retag (accepted_from oracle (length (calls w)) to_review) in
  let r := llm_review_ambiguous oracle cfg l K w in
  fst (fst r) = approved
  /\ snd (fst r)
     = filter (fun m => m ∉ approved) to_review ++ slice_from K l
  /\ calls (snd r) = calls w ++ map build_llm_prompt to_review
  /\ exists entries, audit_log (snd r) = audit_log w ++ entries.
Proof.
  intros Hc Hk. cbv zeta. unfold llm_review_ambiguous.
  destruct l as [|m l].
  - unfold slice_to, slice_from. rewrite take_nil, drop_nil. simpl.
    rewrite app_nil_r. repeat split; auto.
    exists []. rewrite app_nil_r. reflexivity.
  - rewrite Hc, Hk. simpl orb. cbv iota.
    destruct (review_loop (slice_to K (m :: l)) w []) as (Hs & Hcalls & Hlog).
    destruct (fold_left (review_item oracle) (slice_to K (m :: l)) (w, []))
      as [w' approved].
    simpl in Hs, Hcalls, Hlog. simpl. subst approved.
    repeat split; auto.
Qed.

Lemma slice_index_nonneg K n : 0 <= K -> slice_index K n = Z.to_nat K.
Proof.
  intros HK. unfold slice_index.
  destruct (Z.ltb_spec K 0); [lia | reflexivity].
Qed.

Lemma slice_to_from {A} K (l : list A) : slice_to K l ++ slice_from K l = l.
Proof. apply take_drop. Qed.

Lemma review_unavailable cfg (l : list candidate) K w :
  client_available cfg = false \/ api_key_set cfg = false ->
  llm_review_ambiguous oracle cfg l K w = (([], l), w).
Proof.
  intros Hdown. unfold llm_review_ambiguous.
  destruct l as [|m l]; [reflexivity|].
  destruct Hdown as [-> | ->]; [reflexivity|].
  rewrite orb_true_r. reflexivity.
Qed.

(** C5. When the client could not be built or the API key is not set, the
    reviewal of any list (a non-empty one in particular) returns no
    accepted item and the whole input as still ambiguous, and leaves the
    world as it was: no prompt is sent and no line is added to the audit
    log. *)
Theorem oracle_unavailable_short_circuit cfg (l : list candidate) K w :
  client_available cfg = false \/ api_key_set cfg = false ->
  llm_review_ambiguous oracle cfg l K w = (([], l), w)
  /\ calls (snd (llm_review_ambiguous oracle cfg l K w)) = calls w
  /\ audit_log (snd (llm_review_ambiguous oracle cfg l K w)) = audit_log w.
Proof.
  intros Hdown. rewrite (review_unavailable cfg l K w Hdown). auto.
Qed.

(** C6. With the oracle available, for every list of [n] items and every
    cap [K >= 0], the prompts sent are those of the first [K] items, in
    input order and whatever the oracle answers: [min n K] calls. The
    [n - K] items after them come back unchanged as the tail of the
    still-ambiguous list, after a sub-list of the reviewed items. *)
Theorem review_cap_respected cfg (l : list candidate) K w :
  client_available cfg = true -> api_key_set cfg = true -> 0 <= K ->
  let r := llm_review_ambiguous oracle cfg l K w in
  let k := Z.to_nat K in
  calls (snd r) = calls w ++ map build_llm_prompt (take k l)
  /\ length (calls (snd r)) = (length (calls w) + Nat.min (length l) k)%nat
  /\ (exists kept,
        snd (fst r) = kept ++ drop k l /\ kept `sublist_of` take k l)
  /\ length (drop k l) = (length l - k)%nat.
Proof.
  intros Hc Hk HK. cbv zeta.
  destruct (review_available cfg l K w Hc Hk) as (_ & Hstill & Hcalls & _).
  unfold slice_to, slice_from in *.
  rewrite slice_index_nonneg in * by exact HK.
  split; [exact Hcalls|]. split.
  - rewrite Hcalls, length_app, length_map, length_take. lia.
  - split; [|apply length_drop].
    eexists. split; [exact Hstill|]. apply sublist_filter.
Qed.

(** The accepted list is made of re-tagged copies, so an input list none
    of whose items already carries the tag [llm_disambiguation] comes back
    whole as still ambiguous, accepted items included. *)
Lemma still_ambiguous_whole_input cfg (l : list candidate) K w :
  client_available cfg = true -> api_key_set cfg = true ->
  (forall m, m ∈ l -> method m <> "llm_disambiguation") ->
  snd (fst (llm_review_ambiguous oracle cfg l K w)) = l.
Proof.
  intros Hc Hk Hfresh.
  destruct (review_available cfg l K w Hc Hk) as (_ & -> & _).
  transitivity (slice_to K l ++ slice_from K l); [|apply slice_to_from].
  f_equal.
  assert (Hsub : forall m, m ∈ slice_to K l -> m ∈ l).
  { intros m Hm. apply elem_of_take in Hm as (i & Hi & _).
    eapply list_elem_of_lookup_2; eauto. }
  set (approved := map retag _).
  assert (Happ : forall a, a ∈ approved -> method a = "llm_disambiguation").
  { intros a Ha. apply list_elem_of_fmap in Ha as (a0 & -> & _). reflexivity. }
  clearbody approved.
  induction (slice_to K l) as [|m t IH]; [reflexivity|].
  rewrite filter_cons_True.
  - f_equal. apply IH. intros x Hx. apply Hsub. right. exact Hx.
  - intros Hin. apply (Hfresh m); [apply Hsub; left|]. apply Happ, Hin.
Qed.

(** *** The acceptance test *)

Lemma is_level_cases c :
  is_level c = true -> c = "low" \/ c = "medium" \/ c = "high".
Proof.
  unfold is_level. intros H.
  apply orb_true_iff in H as [H|H]; [apply orb_true_iff in H as [H|H]|];
    apply String.eqb_eq in H; auto.
Qed.

(** C3. When the reply to an item parses to an object whose [is_match] is
    a boolean and whose [confidence] is one of low, medium, high, the item
    is appended (re-tagged) to the accepted list if and only if [is_match]
    is true and the confidence is medium or high; otherwise the accepted
    list is left as it was. *)
Theorem acceptance_rule w approved amb content fields (b : bool) (c : string) :
  oracle (length (calls w)) (build_llm_prompt amb)
    = Answers content (Returns (JObj fields)) ->
  obj_get fields "is_match" = Some (JBool b) ->
  obj_get fields "confidence" = Some (JStr c) ->
  is_level c = true ->
  let approved' := snd (review_item oracle (w, approved) amb) in
  (approved' = approved ++ [retag amb] \/ approved' = approved)
  /\ (approved' = approved ++ [retag amb]
      <-> b = true /\ (c = "medium" \/ c = "high")).
Proof.
  intros Hreply Hm Hconf Hlevel. cbv zeta.
  unfold review_item. rewrite Hreply. unfold decide_match.
  rewrite Hm, Hconf. simpl py_bool.
  assert (Hgrow : approved <> approved ++ [retag amb]).
  { intros Heq. apply (f_equal length) in Heq.
    rewrite length_app in Heq. simpl in Heq. lia. }
  destruct b; simpl andb.
  - destruct (is_level_cases c Hlevel) as [-> | [-> | ->]]; simpl.
    + split; [auto|]. split; [congruence|].
      intros (_ & [?|?]); discriminate.
    + split; [auto|]. split; auto.
    + split; [auto|]. split; auto.
  - simpl. split; [auto|]. split; [congruence|]. intros (? & _). discriminate.
Qed.

(** C4, as the code has it. In a batch [pre ++ amb :: post] under review
    every item is sent to the oracle, whatever happens to the others. When
    the call for [amb] fails, or its body is not JSON, or the parsed value
    is not an object, the accepted list is exactly what the items before
    and the items after contribute, each judged on its own reply. A reply
    that parses to an object with a boolean [is_match] and a [confidence]
    among low, medium, high is not a failure, with or without a [reason]:
    [amb] is then accepted exactly when [is_match] is true and the
    confidence is high or medium. *)
Theorem item_failure_is_contained cfg (l pre post : list candidate) amb K w :
  client_available cfg = true -> api_key_set cfg = true ->
  slice_to K l = pre ++ amb :: post ->
  let r := llm_review_ambiguous oracle cfg l K w in
  let n := (length (calls w) + length pre)%nat in
  let before := map retag (accepted_from oracle (length (calls w)) pre) in
  let after := map retag (accepted_from oracle (S n) post) in
  calls (snd r)
  = calls w ++ map build_llm_prompt pre ++ build_llm_prompt amb
      :: map build_llm_prompt post
  /\ (item_fails (oracle n (build_llm_prompt amb)) = true ->
      fst (fst r) = before ++ after)
  /\ (forall content fields (b : bool) (c : string),
        oracle n (build_llm_prompt amb) = Answers content (Returns (JObj fields)) ->
        obj_get fields "is_match" = Some (JBool b) ->
        obj_get fields "confidence" = Some (JStr c) ->
        is_level c = true ->
        fst (fst r)
        = before
          ++ (if b && (String.eqb c "high" || String.eqb c "medium")
              then [retag amb] else [])
          ++ after).
Proof.
  intros Hc Hk Hslice. cbv zeta.
  destruct (review_available cfg l K w Hc Hk) as (-> & _ & -> & _).
  rewrite Hslice, accepted_from_app, !map_app. simpl.
  split; [reflexivity|]. split.
  - intros Hfail. f_equal.
    destruct (oracle (length (calls w) + length pre) (build_llm_prompt amb))
      as [|content [v|]]; simpl in *; try reflexivity.
    destruct v; simpl in *; try reflexivity. discriminate.
  - intros content fields b c -> Hm Hconf Hlevel. f_equal.
    unfold decide_match. rewrite Hm, Hconf. cbn [py_bool].
    destruct (is_level_cases c Hlevel) as [-> | [-> | ->]];
      destruct b; reflexivity.
Qed.

End Oracle.

Import Samples.

(** The three literal cases of the acceptance rule. *)
Example true_low_rejected :
  fst (fst (llm_review_ambiguous (oracle_says (verdict true "low")) ready
              [acme_pair] 10 fresh)) = [].
Proof. vm_compute. reflexivity. Qed.

Example true_medium_accepted :
  fst (fst (llm_review_ambiguous (oracle_says (verdict true "medium")) ready
              [acme_pair] 10 fresh)) = [retag acme_pair].
Proof. vm_compute. reflexivity. Qed.

Example false_high_rejected :
  fst (fst (llm_review_ambiguous (oracle_says (verdict false "high")) ready
              [acme_pair] 10 fresh)) = [].
Proof. vm_compute. reflexivity. Qed.

(** C1, the code at the failing input. One candidate from the matcher, an
    oracle that answers [is_match] true with confidence high: the
    candidate is accepted (its re-tagged copy is returned) and the original
    is returned as still ambiguous as well. *)
Theorem accepted_item_also_still_ambiguous :
  fst (llm_review_ambiguous (oracle_says (verdict true "high")) ready
         [acme_pair] 10 fresh)
  = ([retag acme_pair], [acme_pair]).
Proof. vm_compute. reflexivity. Qed.

Lemma acceptance_rule_witness :
  let approved' :=
    snd (review_item (oracle_says (verdict true "medium")) (fresh, []) acme_pair) in
  (approved' = [] ++ [retag acme_pair] \/ approved' = [])
  /\ (approved' = [] ++ [retag acme_pair]
      <-> true = true /\ ("medium" = "medium" \/ "medium" = "high")).
Proof.
  apply (acceptance_rule (oracle_says (verdict true "medium")) fresh []
           acme_pair "(verdict)"
           [("is_match", JBool true); ("confidence", JStr "medium");
            ("reason", JStr "names agree")] true "medium");
    reflexivity.
Defined.

Lemma oracle_unavailable_short_circuit_witness :
  llm_review_ambiguous (oracle_says (verdict true "high")) no_key
    [acme_pair; acme_pair_twin] 10 fresh
  = (([], [acme_pair; acme_pair_twin]), fresh).
Proof.
  apply (oracle_unavailable_short_circuit (oracle_says (verdict true "high"))
           no_key [acme_pair; acme_pair_twin] 10 fresh).
  right. reflexivity.
Defined.

Lemma review_cap_respected_witness :
  length (calls (snd (llm_review_ambiguous oracle_down ready
                        [acme_pair; acme_pair_twin; acme_pair] 2 fresh)))
  = (0 + Nat.min 3 2)%nat.
Proof.
  apply (review_cap_respected oracle_down ready
           [acme_pair; acme_pair_twin; acme_pair] 2 fresh);
    [reflexivity | reflexivity | lia].
Defined.

(** C4, counterexample. A reply that does not match the requested shape
    (it is valid JSON, an object without [reason]) is not treated as a
    failure: the item is accepted. *)
Lemma off_shape_reply_accepted :
  matches_shape (bare_verdict true "high") = false
  /\ fst (fst (llm_review_ambiguous (oracle_says (bare_verdict true "high"))
                 ready [acme_pair] 10 fresh)) = [retag acme_pair].
Proof. split; vm_compute; reflexivity. Qed.

Lemma item_failure_is_contained_witness :
  fst (fst (llm_review_ambiguous oracle_garbled_first ready
              [acme_pair; acme_pair_twin] 10 fresh))
  = [] ++ [retag acme_pair_twin].
Proof.
  apply (item_failure_is_contained oracle_garbled_first ready
           [acme_pair; acme_pair_twin] [] [acme_pair_twin] acme_pair 10 fresh);
    reflexivity.
Defined.

End ReviewFacts.

(** ** The unification writer *)

Module WriterFacts.
Import Text Matcher Review Writer.

Section Constraints.
Variable admits : list unified_row -> unified_row -> bool.

Lemma insert_match_counts s m s' :
  insert_match admits s m = Returns s' ->
  length (company_unified s') = S (length (company_unified s))
  /\ length (company_source_link s') = S (S (length (company_source_link s)))
  /\ next_company_id s' = next_company_id s + 1.
Proof.
  unfold insert_match.
  destruct (unified_record m (next_company_id s)) as [row|]; [|discriminate].
  destruct (admits (company_unified s) row); [|discriminate]. simpl.
  destruct (cc m !! "commoncrawl_id") as [key|]; [|discriminate].
  intros [= <-]. simpl. rewrite !length_app. simpl. repeat split; lia.
Qed.

Lemma insert_all_counts (matches : list candidate) :
  forall s s',
    insert_all admits s matches = Returns s' ->
    length (company_unified s')
    = (length (company_unified s) + length matches)%nat
    /\ length (company_source_link s')
       = (length (company_source_link s) + 2 * length matches)%nat
    /\ next_company_id s' = next_company_id s + Z.of_nat (length matches).
Proof.
  induction matches as [|m rest IH]; intros s s'; simpl.
  - intros [= <-]. repeat split; lia.
  - destruct (insert_match admits s m) as [s1|] eqn:H1; [|discriminate].
    intros Hrest. apply insert_match_counts in H1 as (Hu & Hl & Hn).
    apply IH in Hrest as (Hu' & Hl' & Hn'). repeat split; lia.
Qed.

(** A link row points to the unified row written just before it. *)
Lemma insert_match_links s m s' :
  insert_match admits s m = Returns s' ->
  exists row key,
    company_unified s' = company_unified s ++ [row]
    /\ company_id row = next_company_id s
    /\ company_source_link s'
       = company_source_link s
         ++ [LinkRow (company_id row) "ABR" (u_abn row);
             LinkRow (company_id row) "COMMONCRAWL" key].
Proof.
  unfold insert_match.
  destruct (unified_record m (next_company_id s)) as [row|] eqn:Hrow;
    [|discriminate].
  destruct (admits (company_unified s) row); [|discriminate]. simpl.
  destruct (cc m !! "commoncrawl_id") as [key|]; [|discriminate].
  intros [= <-]. exists row, key. simpl. rewrite <- app_assoc. simpl.
  assert (Hid : company_id row = next_company_id s).
  { unfold unified_record in Hrow.
    destruct (DateParse.parse_date_safe _) as [start_date|]; [|discriminate].
    destruct (abr m !! "abn"); [|discriminate].
    injection Hrow as <-. reflexivity. }
  rewrite Hid. repeat split; reflexivity.
Qed.

(** C9, as the code has it. Writing the same list a second time gives the
    store and the outcome of the first write. A non-empty list whose
    inserts all succeed replaces the two tables: the result is what the
    inserts make of the truncated store, whatever was there before, with
    one unified row and two link rows per candidate. An empty list returns
    before anything is truncated and a failed write is rolled back: both
    leave the store as it was. *)
Theorem write_is_idempotent (matches : list candidate) (s : store) :
  let r := write_matches_to_db admits matches s in
  write_matches_to_db admits matches (fst r) = r
  /\ (matches = [] -> r = (s, Returns tt))
  /\ (snd r = Raises -> fst r = s)
  /\ (matches <> [] -> snd r = Returns tt ->
      insert_all admits (Store [] [] 1) matches = Returns (fst r)
      /\ row_counts (fst r) = (length matches, (2 * length matches)%nat)).
Proof.
  cbv zeta. unfold write_matches_to_db.
  destruct matches as [|m rest].
  - split; [reflexivity|]. split; [reflexivity|]. split; [reflexivity|].
    intros Hne. contradiction.
  - unfold truncate.
    destruct (insert_all admits (Store [] [] 1) (m :: rest)) as [s'|] eqn:Hins;
      cbn [fst snd].
    + split; [reflexivity|]. split; [discriminate|].
      split; [discriminate|]. intros _ _. split; [reflexivity|].
      apply insert_all_counts in Hins as (Hu & Hl & _).
      unfold row_counts. simpl in Hu, Hl. rewrite Hu, Hl. reflexivity.
    + split; [reflexivity|]. split; [discriminate|].
      split; [reflexivity|]. intros _. discriminate.
Qed.

End Constraints.

Import Samples.

(** The writer on the accepted pair of the end-to-end scenario: one
    unified row and two link rows, also over a store left by an earlier
    run, and also when written twice. *)
Example one_pair_written :
  row_counts (fst (write_matches_to_db admit_all [retag acme_pair] stale_store))
  = (1%nat, 2%nat).
Proof. vm_compute. reflexivity. Qed.

Example one_pair_written_twice :
  write_matches_to_db admit_all [retag acme_pair]
    (fst (write_matches_to_db admit_all [retag acme_pair] stale_store))
  = write_matches_to_db admit_all [retag acme_pair] empty_store.
Proof. vm_compute. reflexivity. Qed.

(** C9, counterexample. A run on the empty list does not truncate: the
    rows of the earlier run stay, one unified row and two link rows for no
    accepted candidate. *)
Lemma empty_write_keeps_stale_rows :
  write_matches_to_db admit_all [] stale_store = (stale_store, Returns tt)
  /\ row_counts (fst (write_matches_to_db admit_all [] stale_store))
     = (1%nat, 2%nat)
  /\ (length (@nil candidate), (2 * length (@nil candidate))%nat)
     = (0%nat, 0%nat).
Proof. repeat split. Qed.

Lemma write_is_idempotent_witness :
  insert_all admit_all (Store [] [] 1) [retag acme_pair]
  = Returns (fst (write_matches_to_db admit_all [retag acme_pair] stale_store))
  /\ row_counts (fst (write_matches_to_db admit_all [retag acme_pair] stale_store))
     = (length [retag acme_pair], (2 * length [retag acme_pair])%nat).
Proof.
  apply (write_is_idempotent admit_all [retag acme_pair] stale_store).
  - discriminate.
  - vm_compute. reflexivity.
Defined.

End WriterFacts.

(** ** Dates read back from their text *)

Module DateTextFacts.
Import Utf8 DateParse DateText.

Lemma digit_char_code n : 0 <= n <= 9 -> byte (digit_char n) = 48 + n.
Proof.
  intros Hn. unfold digit_char, byte.
  rewrite N_ascii_embedding by lia. lia.
Qed.

(** The ASCII digits head both tables. *)
Lemma is_decimal_ascii c : 48 <= c <= 57 -> is_decimal c = true.
Proof.
  intros Hc. unfold is_decimal, decimal_ranges. cbn [existsb].
  apply orb_true_iff. left. unfold holds, in_range. cbn [fst snd].
  apply andb_true_iff. split; apply Z.leb_le; lia.
Qed.

Lemma digit_ascii c : 48 <= c <= 57 -> digit c = c - 48.
Proof.
  intros Hc. unfold digit, decimal_ranges. cbn [find].
  replace (holds c (48, 57)) with true.
  - cbn [fst]. rewrite Z.mod_small; lia.
  - symmetry. unfold holds, in_range. cbn [fst snd].
    apply andb_true_iff. split; apply Z.leb_le; lia.
Qed.

Lemma isdigit_ascii c :
  48 <= c <= 57 -> existsb (holds c) digit_ranges = true.
Proof.
  intros Hc. unfold digit_ranges. cbn [existsb].
  apply orb_true_iff. left. unfold holds, in_range. cbn [fst snd].
  apply andb_true_iff. split; apply Z.leb_le; lia.
Qed.

Lemma digit_bounds c : 0 <= digit c <= 9.
Proof.
  unfold digit. destruct (find (holds c) decimal_ranges) as [r|]; [|lia].
  pose proof (Z.mod_pos_bound (c - fst r) 10). lia.
Qed.

Ltac div_lia := Z.to_euclidean_division_equations; lia.

Lemma codes_four_digits y :
  0 <= y <= 9999 ->
  codes (four_digits y)
  = [48 + y / 1000; 48 + y / 100 mod 10; 48 + y / 10 mod 10; 48 + y mod 10].
Proof.
  intros Hy. unfold codes, four_digits. cbn [map].
  rewrite !digit_char_code by div_lia. reflexivity.
Qed.

Lemma codes_two_digits n :
  0 <= n <= 99 -> codes (two_digits n) = [48 + n / 10; 48 + n mod 10].
Proof.
  intros Hn. unfold codes, two_digits. cbn [map].
  rewrite !digit_char_code by div_lia. reflexivity.
Qed.

(** [%Y] reads back the four digits of a year. *)
Lemma re_Y_four_digits y rest :
  0 <= y <= 9999 -> re_Y (codes (four_digits y) ++ rest) = [(y, rest)].
Proof.
  intros Hy. rewrite codes_four_digits by exact Hy. unfold re_Y. cbn [app].
  rewrite !is_decimal_ascii, !digit_ascii by div_lia. cbn [andb].
  do 2 f_equal. div_lia.
Qed.

(** [%m] and [%d] read back two digits, as their first alternative. *)
Lemma re_m_two_digits m rest :
  1 <= m <= 12 ->
  exists others, re_m (codes (two_digits m) ++ rest) = (m, rest) :: others.
Proof.
  intros Hm.
  assert (Hcases : m = 1 \/ m = 2 \/ m = 3 \/ m = 4 \/ m = 5 \/ m = 6 \/ m = 7
                   \/ m = 8 \/ m = 9 \/ m = 10 \/ m = 11 \/ m = 12) by lia.
  repeat (destruct Hcases as [->|Hcases]; [eexists; reflexivity|]).
  subst m. eexists; reflexivity.
Qed.

Lemma re_d_two_digits d rest :
  1 <= d <= 31 ->
  exists others, re_d (codes (two_digits d) ++ rest) = (d, rest) :: others.
Proof.
  intros Hd.
  assert (Hcases :
    d = 1 \/ d = 2 \/ d = 3 \/ d = 4 \/ d = 5 \/ d = 6 \/ d = 7 \/ d = 8
    \/ d = 9 \/ d = 10 \/ d = 11 \/ d = 12 \/ d = 13 \/ d = 14 \/ d = 15
    \/ d = 16 \/ d = 17 \/ d = 18 \/ d = 19 \/ d = 20 \/ d = 21 \/ d = 22
    \/ d = 23 \/ d = 24 \/ d = 25 \/ d = 26 \/ d = 27 \/ d = 28 \/ d = 29
    \/ d = 30 \/ d = 31) by lia.
  repeat (destruct Hcases as [->|Hcases]; [eexists; reflexivity|]).
  subst d. eexists; reflexivity.
Qed.

Lemma days_in_month_le y m : days_in_month y m <= 31.
Proof.
  unfold days_in_month.
  destruct (m =? 2); [destruct (is_leap y); lia|].
  destruct ((m =? 4) || (m =? 6) || (m =? 9) || (m =? 11)); lia.
Qed.

Lemma valid_date_bounds d :
  valid_date d = true ->
  1 <= year d <= 9999 /\ 1 <= month d <= 12 /\ 1 <= day d <= 31.
Proof.
  unfold valid_date. rewrite !andb_true_iff, !Z.leb_le.
  pose proof (days_in_month_le (year d) (month d)). lia.
Qed.

Lemma digit_char_small n : 0 <= n <= 9 -> byte (digit_char n) < 128.
Proof. intros Hn. rewrite digit_char_code by exact Hn. lia. Qed.

Lemma four_digits_small y :
  0 <= y <= 9999 -> Forall (fun c => byte c < 128) (four_digits y).
Proof.
  intros Hy. unfold four_digits.
  repeat (constructor; [apply digit_char_small; div_lia|]). constructor.
Qed.

Lemma two_digits_small n :
  0 <= n <= 99 -> Forall (fun c => byte c < 128) (two_digits n).
Proof.
  intros Hn. unfold two_digits.
  repeat (constructor; [apply digit_char_small; div_lia|]). constructor.
Qed.

Lemma dash_small l :
  Forall (fun c => byte c < 128) l ->
  Forall (fun c => byte c < 128) ("-"%char :: l).
Proof. intros Hl. constructor; [vm_compute; reflexivity | exact Hl]. Qed.

Lemma chars_show_compact d :
  valid_date d = true ->
  chars (show_compact d)
  = codes (four_digits (year d)) ++ codes (two_digits (month d))
      ++ codes (two_digits (day d)).
Proof.
  intros Hv. destruct (valid_date_bounds d Hv) as (Hy & Hm & Hd).
  unfold chars, show_compact. rewrite Utf8Facts.code_points_ascii.
  - unfold codes. rewrite !map_app. reflexivity.
  - rewrite !Forall_app.
    split; [apply four_digits_small; lia|].
    split; apply two_digits_small; lia.
Qed.

Lemma chars_show_dashed d :
  valid_date d = true ->
  chars (show_dashed d)
  = codes (four_digits (year d)) ++ dash :: codes (two_digits (month d))
      ++ dash :: codes (two_digits (day d)).
Proof.
  intros Hv. destruct (valid_date_bounds d Hv) as (Hy & Hm & Hd).
  unfold chars, show_dashed. rewrite Utf8Facts.code_points_ascii.
  - unfold codes. rewrite map_app. cbn [map]. rewrite map_app. reflexivity.
  - rewrite Forall_app. split; [apply four_digits_small; lia|].
    apply dash_small. rewrite Forall_app.
    split; [apply two_digits_small; lia|].
    apply dash_small, two_digits_small. lia.
Qed.

Lemma strptime_show_compact d :
  valid_date d = true -> strptime fmt_compact (show_compact d) = Returns d.
Proof.
  intros Hv. destruct (valid_date_bounds d Hv) as (Hy & Hm & Hd).
  unfold strptime, fmt_compact. rewrite chars_show_compact by exact Hv.
  cbn [matches]. rewrite re_Y_four_digits by lia. cbn [flat_map].
  destruct (re_m_two_digits (month d) (codes (two_digits (day d))) Hm)
    as [om ->].
  cbn [flat_map].
  destruct (re_d_two_digits (day d) [] Hd) as [od Hod].
  rewrite app_nil_r in Hod. rewrite Hod. cbn [flat_map app year month day].
  destruct d as [y m dd]. cbn [year month day] in *.
  cbn. rewrite Hv. reflexivity.
Qed.

Lemma strptime_show_dashed d :
  valid_date d = true -> strptime fmt_dashed (show_dashed d) = Returns d.
Proof.
  intros Hv. destruct (valid_date_bounds d Hv) as (Hy & Hm & Hd).
  unfold strptime, fmt_dashed. rewrite chars_show_dashed by exact Hv.
  cbn [matches]. rewrite re_Y_four_digits by lia. cbn [flat_map app].
  rewrite Z.eqb_refl.
  change (codes (two_digits (month d)) ++ dash :: codes (two_digits (day d)))
    with (codes (two_digits (month d))
            ++ (dash :: codes (two_digits (day d)))).
  destruct (re_m_two_digits (month d) (dash :: codes (two_digits (day d))) Hm)
    as [om ->].
  cbn [flat_map app]. rewrite Z.eqb_refl.
  destruct (re_d_two_digits (day d) [] Hd) as [od Hod].
  rewrite app_nil_r in Hod. rewrite Hod. cbn [flat_map app year month day].
  destruct d as [y m dd]. cbn [year month day] in *.
  cbn. rewrite Hv. reflexivity.
Qed.

Lemma forallb_codes_digits (l : list Z) :
  Forall (fun c => 48 <= c <= 57) l ->
  forallb (fun c => existsb (holds c) digit_ranges) l = true.
Proof.
  intros Hl. apply forallb_forall. intros c Hc.
  apply isdigit_ascii. rewrite List.Forall_forall in Hl. apply Hl, Hc.
Qed.

(** X1. Every calendar date (year 1 to 9999) written as YYYYMMDD, and
    written as YYYY-MM-DD, is read back by [parse_date_safe] as that same
    date. *)
Theorem parse_date_safe_reads_back d :
  valid_date d = true ->
  parse_date_safe (VText (show_compact d)) = Returns (Some d)
  /\ parse_date_safe (VText (show_dashed d)) = Returns (Some d).
Proof.
  intros Hv. destruct (valid_date_bounds d Hv) as (Hy & Hm & Hd).
  split; apply DateParseFacts.parse_date_safe_text_some.
  - unfold parse_date_body.
    assert (Hlen : len (show_compact d) = 8%nat).
    { unfold len. rewrite chars_show_compact by exact Hv. reflexivity. }
    assert (Hall : isdigit (show_compact d) = true).
    { unfold isdigit. rewrite chars_show_compact by exact Hv.
      rewrite codes_four_digits, !codes_two_digits by lia.
      cbn [app]. apply forallb_codes_digits.
      repeat (constructor; [div_lia|]). constructor. }
    rewrite Hlen, Hall. cbn [Nat.eqb andb].
    rewrite strptime_show_compact by exact Hv. reflexivity.
  - unfold parse_date_body.
    assert (Hlen : len (show_dashed d) = 10%nat).
    { unfold len. rewrite chars_show_dashed by exact Hv. reflexivity. }
    assert (Hdash : contains dash (show_dashed d) = true).
    { unfold contains. rewrite chars_show_dashed by exact Hv.
      apply existsb_exists. exists dash. split; [|reflexivity].
      apply in_or_app. right. left. reflexivity. }
    rewrite Hlen, Hdash. cbn [Nat.eqb andb].
    rewrite strptime_show_dashed by exact Hv. reflexivity.
Qed.

Lemma parse_date_safe_reads_back_witness :
  parse_date_safe (VText (show_compact (Date 2024 2 29)))
  = Returns (Some (Date 2024 2 29))
  /\ parse_date_safe (VText (show_dashed (Date 2024 2 29)))
     = Returns (Some (Date 2024 2 29)).
Proof. apply (parse_date_safe_reads_back (Date 2024 2 29)). reflexivity. Defined.

(** *** What the two formats accept *)

Lemma in_range_bounds lo hi c : in_range lo hi c = true -> lo <= c <= hi.
Proof. unfold in_range. rewrite andb_true_iff, !Z.leb_le. tauto. Qed.

Lemma spells_two a b :
  is_decimal a = true -> is_decimal b = true ->
  spells [a; b] (10 * digit a + digit b).
Proof.
  intros Ha Hb. split.
  - cbn [forallb]. rewrite Ha, Hb. reflexivity.
  - unfold number. cbn [fold_left]. lia.
Qed.

Lemma codes_of_two a b :
  48 <= a <= 57 -> 48 <= b <= 57 ->
  codes (two_digits (10 * digit a + digit b)) = [a; b].
Proof.
  intros Ha Hb. rewrite !digit_ascii by assumption.
  rewrite codes_two_digits by lia. f_equal; [div_lia|]. f_equal. div_lia.
Qed.

Lemma two_elem p q cs v rest :
  In (v, rest) (two p q cs) ->
  exists a b,
    cs = a :: b :: rest /\ p a = true /\ q b = true
    /\ v = 10 * digit a + digit b.
Proof.
  unfold two. destruct cs as [|a [|b cs']]; try contradiction.
  destruct (p a) eqn:Ha; [|contradiction].
  destruct (q b) eqn:Hb; [|contradiction].
  intros [[= <- <-]|[]]. exists a, b. auto.
Qed.

(** An alternative made of two bracketed ranges takes two ASCII digits. *)
Lemma two_ascii lo1 hi1 lo2 hi2 cs v rest :
  48 <= lo1 -> hi1 <= 57 -> 48 <= lo2 -> hi2 <= 57 ->
  In (v, rest) (two (in_range lo1 hi1) (in_range lo2 hi2) cs) ->
  cs = codes (two_digits v) ++ rest
  /\ exists ds, cs = ds ++ rest /\ length ds = 2%nat /\ spells ds v.
Proof.
  intros ? ? ? ? Hin.
  apply two_elem in Hin as (a & b & -> & Ha & Hb & ->).
  apply in_range_bounds in Ha, Hb.
  rewrite codes_of_two by lia. split; [reflexivity|].
  exists [a; b]. split; [reflexivity|]. split; [reflexivity|].
  apply spells_two; apply is_decimal_ascii; lia.
Qed.

Lemma one_elem p cs v rest :
  In (v, rest) (one p cs) -> length cs = S (length rest).
Proof.
  unfold one. destruct cs as [|a cs']; [contradiction|].
  destruct (p a); [|contradiction]. intros [[= <- <-]|[]]. reflexivity.
Qed.

Lemma space_then_elem cs v rest :
  In (v, rest) (space_then (in_range 49 57) cs) ->
  cs = space :: 48 + v :: rest /\ 1 <= v <= 9.
Proof.
  unfold space_then. destruct cs as [|a [|b cs']]; try contradiction.
  destruct (Z.eqb_spec a space) as [->|]; [|contradiction].
  destruct (in_range 49 57 b) eqn:Hb; [|contradiction].
  intros [[= <- <-]|[]]. apply in_range_bounds in Hb.
  rewrite digit_ascii by lia. split; [f_equal; f_equal; lia | lia].
Qed.

Lemma re_Y_elem cs y rest :
  In (y, rest) (re_Y cs) ->
  exists ys, cs = ys ++ rest /\ length ys = 4%nat /\ spells ys y.
Proof.
  unfold re_Y. destruct cs as [|a [|b [|c [|d cs']]]]; try contradiction.
  destruct (is_decimal a) eqn:Ha; [|contradiction].
  destruct (is_decimal b) eqn:Hb; [|contradiction].
  destruct (is_decimal c) eqn:Hc; [|contradiction].
  destruct (is_decimal d) eqn:Hd; [|contradiction].
  intros [[= <- <-]|[]].
  exists [a; b; c; d]. split; [reflexivity|]. split; [reflexivity|]. split.
  - cbn [forallb]. rewrite Ha, Hb, Hc, Hd. reflexivity.
  - unfold number. cbn [fold_left]. lia.
Qed.

Lemma re_m_elem cs v rest :
  In (v, rest) (re_m cs) ->
  cs = codes (two_digits v) ++ rest \/ length cs = S (length rest).
Proof.
  unfold re_m. rewrite !in_app_iff. intros [H|[H|H]].
  - left. eapply (two_ascii 49 49 48 50); eauto; lia.
  - left. eapply (two_ascii 48 48 49 57); eauto; lia.
  - right. eapply one_elem; eauto.
Qed.

Lemma re_d_elem cs v rest :
  In (v, rest) (re_d cs) ->
  (exists ds, cs = ds ++ rest /\ length ds = 2%nat /\ spells ds v)
  \/ length cs = S (length rest)
  \/ (cs = space :: 48 + v :: rest /\ 1 <= v <= 9).
Proof.
  unfold re_d. rewrite !in_app_iff. intros [H|[H|[H|[H|H]]]].
  - left. eapply (two_ascii 51 51 48 49); eauto; lia.
  - left. apply two_elem in H as (a & b & -> & Ha & Hb & ->).
    apply in_range_bounds in Ha.
    exists [a; b]. split; [reflexivity|]. split; [reflexivity|].
    apply spells_two; [apply is_decimal_ascii; lia | exact Hb].
  - left. eapply (two_ascii 48 48 49 57); eauto; lia.
  - right. left. eapply one_elem; eauto.
  - right. right. apply space_then_elem. exact H.
Qed.

Lemma strptime_head fmt s d :
  strptime fmt s = Returns d ->
  In (d, []) (matches fmt start (chars s)) /\ valid_date d = true.
Proof.
  unfold strptime.
  destruct (matches fmt start (chars s)) as [|[d' rest] tl]; [discriminate|].
  destruct rest; [|discriminate].
  destruct (valid_date d') eqn:Hv; [|discriminate].
  intros [= <-]. split; [left; reflexivity | exact Hv].
Qed.

Lemma strptime_compact_text s d :
  strptime fmt_compact s = Returns d -> len s = 8%nat ->
  isdigit s = true -> writes_compact (chars s) d.
Proof.
  intros Hp Hlen Hdig. apply strptime_head in Hp as [Hin _].
  unfold len in Hlen.
  assert (Hall : forall c, In c (chars s) ->
                   existsb (holds c) digit_ranges = true).
  { apply forallb_forall. unfold isdigit in Hdig.
    destruct (chars s); [discriminate | exact Hdig]. }
  clear Hdig.
  unfold fmt_compact in Hin. cbn [matches] in Hin.
  apply in_flat_map in Hin as ([y r1] & HY & Hin).
  apply in_flat_map in Hin as ([m r2] & HM & Hin).
  apply in_flat_map in Hin as ([dd r3] & HD & Hin).
  destruct Hin as [[= <- ->]|[]]. cbn [year month day] in *.
  apply re_Y_elem in HY as (ys & HY & Hys & Hsy).
  apply re_m_elem in HM. apply re_d_elem in HD.
  rewrite HY in *. rewrite length_app, Hys in Hlen.
  destruct HM as [->|HM].
  - rewrite length_app in Hlen. cbn [codes two_digits map length] in Hlen.
    destruct HD as [(ds & -> & Hds & Hsd)|[HD|[-> _]]].
    + exists ys, ds. rewrite app_nil_r. cbn [year month day]. auto.
    + simpl in HD. lia.
    + exfalso.
      assert (Hsp : existsb (holds space) digit_ranges = true);
        [|vm_compute in Hsp; discriminate].
      apply Hall. rewrite !in_app_iff. right. right. left. reflexivity.
  - exfalso. cbn [length] in *.
    destruct HD as [(ds & HD & Hds & _)|[HD|[HD _]]];
      [apply (f_equal length) in HD; rewrite length_app in HD
      | | apply (f_equal length) in HD];
      cbn [length] in *; lia.
Qed.

Lemma strptime_dashed_text s d :
  strptime fmt_dashed s = Returns d -> len s = 10%nat ->
  writes_dashed (chars s) d \/ writes_padded (chars s) d.
Proof.
  intros Hp Hlen. apply strptime_head in Hp as [Hin _].
  unfold len in Hlen.
  unfold fmt_dashed in Hin. cbn [matches] in Hin.
  apply in_flat_map in Hin as ([y r1] & HY & Hin).
  destruct r1 as [|c1 r1]; [contradiction|].
  destruct (Z.eqb_spec c1 dash) as [->|]; [|contradiction].
  apply in_flat_map in Hin as ([m r2] & HM & Hin).
  destruct r2 as [|c2 r2]; [contradiction|].
  destruct (Z.eqb_spec c2 dash) as [->|]; [|contradiction].
  apply in_flat_map in Hin as ([dd r3] & HD & Hin).
  destruct Hin as [[= <- ->]|[]]. cbn [year month day] in *.
  apply re_Y_elem in HY as (ys & HY & Hys & Hsy).
  apply re_m_elem in HM. apply re_d_elem in HD.
  rewrite HY in *. rewrite length_app, Hys in Hlen.
  destruct HM as [->|HM].
  - cbn [length] in Hlen.
    rewrite length_app in Hlen. cbn [codes two_digits map length] in Hlen.
    destruct HD as [(ds & -> & Hds & Hsd)|[HD|[-> Hd9]]].
    + left. exists ys, ds. rewrite app_nil_r. cbn [year month day]. auto.
    + simpl in HD. lia.
    + right. exists ys. cbn [year month day]. auto.
  - exfalso. cbn [length] in *.
    destruct HD as [(ds & HD & Hds & _)|[HD|[HD _]]];
      [apply (f_equal length) in HD; rewrite length_app in HD
      | | apply (f_equal length) in HD];
      cbn [length] in *; lia.
Qed.

(** X2. [parse_date_safe] returns a date for no other text than one that
    writes it: the date it returns is a calendar date, and the text is its
    year in four decimal digits, its month in two ASCII digits and its day
    in two decimal digits, run together or joined by dashes; or, with
    dashes, the day is one ASCII digit after a space. *)
Theorem parse_date_safe_accepts_only s d :
  parse_date_safe (VText s) = Returns (Some d) ->
  valid_date d = true
  /\ (writes_compact (chars s) d \/ writes_dashed (chars s) d
      \/ writes_padded (chars s) d).
Proof.
  intros Hparse.
  apply DateParseFacts.parse_date_safe_text_some in Hparse.
  apply DateParseFacts.parse_date_body_some in Hparse
    as [(Hlen & Hdig & Hp)|(Hlen & _ & Hp)].
  - split; [eapply DateParseFacts.strptime_valid; eauto|].
    left. apply strptime_compact_text; assumption.
  - split; [eapply DateParseFacts.strptime_valid; eauto|].
    right. apply strptime_dashed_text; assumption.
Qed.

Lemma parse_date_safe_accepts_only_witness :
  valid_date (Date 2020 1 31) = true
  /\ (writes_compact (chars fullwidth_2020_0131) (Date 2020 1 31)
      \/ writes_dashed (chars fullwidth_2020_0131) (Date 2020 1 31)
      \/ writes_padded (chars fullwidth_2020_0131) (Date 2020 1 31)).
Proof.
  apply (parse_date_safe_accepts_only fullwidth_2020_0131).
  vm_compute. reflexivity.
Defined.

End DateTextFacts.

(** ** More on the matcher *)

Module MatcherMore.
Import Text Matcher MatcherFacts.

Section Scorer.
Variable ratio : string -> string -> Qc.

(** What the two buckets look like for any list of filled web rows. *)
Lemma buckets_shape abr_df (rows : list (gmap string string)) :
  let amb := flat_map (fun r => fst (match_step ratio abr_df ([], []) r)) rows in
  let unm := flat_map (fun r => snd (match_step ratio abr_df ([], []) r)) rows in
  (length amb + length unm = length rows)%nat
  /\ map cc amb `sublist_of` rows
  /\ unm `sublist_of` rows.
Proof.
  cbv zeta. induction rows as [|r rows (IHn & IHa & IHu)]; simpl.
  - repeat split; constructor.
  - rewrite !length_app, map_app.
    destruct (match_step_cases ratio abr_df r)
      as [(_ & ->)|[(_ & s & _ & ->)|(_ & s & e & _ & ->)]]; simpl.
    + split; [lia|]. split; [apply sublist_cons, IHa | apply sublist_skip, IHu].
    + split; [lia|]. split; [apply sublist_cons, IHa | apply sublist_skip, IHu].
    + split; [lia|]. split; [apply sublist_skip, IHa | apply sublist_cons, IHu].
Qed.

(** X3. Past the empty-frame guard no mention is lost or duplicated: the
    sizes of the ambiguous and the unmatched bucket add up to the number
    of web rows, both buckets keep the order of the web frame, and a web
    row is in the unmatched bucket exactly when no candidate was built on
    it. *)
Theorem every_mention_in_one_bucket abr_df cc_df hi lo :
  df_empty abr_df = false -> df_empty cc_df = false ->
  let '(_, ambiguous, unmatched) :=
    fuzzy_match_entities ratio abr_df cc_df hi lo in
  (length ambiguous + length unmatched = length cc_df)%nat
  /\ map cc ambiguous `sublist_of` fillna cc_df
  /\ unmatched `sublist_of` fillna cc_df
  /\ (forall r, r ∈ fillna cc_df ->
        (r ∈ unmatched <-> ~ exists c, c ∈ ambiguous /\ cc c = r)).
Proof.
  intros Ha Hc. rewrite fuzzy_match_nonempty by assumption.
  destruct (buckets_shape (fillna abr_df) (fillna cc_df)) as (Hn & Hsa & Hsu).
  cbv zeta in Hn, Hsa, Hsu.
  split; [rewrite Hn; unfold fillna; apply length_map|].
  split; [exact Hsa|]. split; [exact Hsu|].
  intros r Hr. rewrite in_unmatched. split.
  - intros (_ & Hcase) (c & Hin & Hcc).
    apply in_ambiguous in Hin as (r' & s & e & _ & Ht & Hb & ->).
    simpl in Hcc. subst r'. destruct Hcase as [Hf|Hn0].
    + congruence.
    + rewrite Hb in Hn0. discriminate.
  - intros Hno. split; [exact Hr|].
    destruct (truthy (cc_name_of r)) eqn:Ht; [|left; reflexivity].
    right. destruct (best_match ratio (cc_name_of r) (fillna abr_df))
      as [s [e|]] eqn:Hb; [|reflexivity].
    exfalso. apply Hno. exists (Candidate r e s "fuzzy_name_ambiguous").
    split; [|reflexivity]. apply in_ambiguous. exists r, s, e. auto.
Qed.

Lemma best_match_some name (l : list (gmap string string)) s e :
  best_match ratio name l = (s, Some e) ->
  e ∈ l /\ eligible e /\ s = ratio name (abr_name_of e) /\ (-1 < s)%Qc.
Proof.
  unfold best_match. intros Hb.
  destruct (best_loop ratio name l ((-1)%Qc, None))
    as [[_ Heq]|(pre & e' & post & -> & He & Heq & Hgt & _)];
    rewrite Heq in Hb.
  - discriminate.
  - injection Hb as <- <-. simpl in Hgt.
    split; [apply elem_of_app; right; left|]. auto.
Qed.

(** X4. Every candidate in the ambiguous bucket is consistent with the
    two frames: its web row and its registry row are rows of the filled
    frames, both stripped names are non-empty, its score is the ratio of
    these two names and is above the initial -1, and its tag is
    [fuzzy_name_ambiguous]. *)
Theorem candidates_are_consistent abr_df cc_df hi lo c :
  c ∈ snd (fst (fuzzy_match_entities ratio abr_df cc_df hi lo)) ->
  cc c ∈ fillna cc_df
  /\ abr c ∈ fillna abr_df
  /\ truthy (cc_name_of (cc c)) = true
  /\ eligible (abr c)
  /\ score c = ratio (cc_name_of (cc c)) (abr_name_of (abr c))
  /\ (-1 < score c)%Qc
  /\ method c = "fuzzy_name_ambiguous".
Proof.
  destruct (df_empty abr_df || df_empty cc_df) eqn:Hguard.
  - apply orb_true_iff in Hguard. rewrite fuzzy_match_guard by exact Hguard.
    simpl. intros Hin. inversion Hin.
  - apply orb_false_iff in Hguard as [Ha Hc].
    rewrite fuzzy_match_nonempty by assumption. simpl.
    intros Hin. apply in_ambiguous in Hin as (r & s & e & Hr & Ht & Hb & ->).
    apply best_match_some in Hb as (He & Hel & Hs & Hgt). simpl.
    repeat split; auto.
Qed.

Lemma df_empty_app (df1 df2 : list staged_row) :
  df_empty (df1 ++ df2) = df_empty df1 && df_empty df2.
Proof. unfold df_empty. apply forallb_app. Qed.

(** X5. Mentions are matched independently of each other: with a registry
    and two web frames none of which is empty, matching the two web frames
    put end to end gives the buckets of the first followed by the buckets
    of the second. *)
Theorem web_frames_concatenate abr_df cc1 cc2 hi lo :
  df_empty abr_df = false -> df_empty cc1 = false -> df_empty cc2 = false ->
  let '(_, amb1, unm1) := fuzzy_match_entities ratio abr_df cc1 hi lo in
  let '(_, amb2, unm2) := fuzzy_match_entities ratio abr_df cc2 hi lo in
  fuzzy_match_entities ratio abr_df (cc1 ++ cc2) hi lo
  = ([], amb1 ++ amb2, unm1 ++ unm2).
Proof.
  intros Ha H1 H2.
  rewrite !fuzzy_match_nonempty; try assumption.
  - unfold fillna. rewrite map_app, !flat_map_app. reflexivity.
  - rewrite df_empty_app, H1. reflexivity.
Qed.

(** The inner loop computes a maximum: it ends as it started when no
    eligible row scores above -1, and otherwise holds an eligible row whose
    score no eligible row exceeds. *)
Lemma best_match_max name (l : list (gmap string string)) :
  ((forall x, x ∈ l -> eligible x -> (ratio name (abr_name_of x) <= -1)%Qc)
   /\ best_match ratio name l = ((-1)%Qc, None))
  \/ exists e,
       e ∈ l /\ eligible e
       /\ best_match ratio name l = (ratio name (abr_name_of e), Some e)
       /\ (-1 < ratio name (abr_name_of e))%Qc
       /\ forall x, x ∈ l -> eligible x ->
            (ratio name (abr_name_of x) <= ratio name (abr_name_of e))%Qc.
Proof.
  unfold best_match.
  destruct (best_loop ratio name l ((-1)%Qc, None))
    as [[Hall Heq]|(pre & e & post & -> & He & Heq & Hgt & Hpre & Hpost)].
  - left. auto.
  - right. exists e. repeat split; auto.
    + apply elem_of_app. right. left.
    + intros x Hx Hel. apply elem_of_app in Hx as [Hx|Hx].
      * apply Qclt_le_weak. auto.
      * apply elem_of_cons in Hx as [->|Hx]; [apply Qcle_refl | auto].
Qed.

Lemma best_match_perm name (l l' : list (gmap string string)) :
  l ≡ₚ l' ->
  fst (best_match ratio name l) = fst (best_match ratio name l')
  /\ (snd (best_match ratio name l) = None
      <-> snd (best_match ratio name l') = None).
Proof.
  intros Hperm.
  destruct (best_match_max name l)
    as [[Hall ->]|(e & He & Hel & -> & Hgt & Hmax)];
    destruct (best_match_max name l')
      as [[Hall' ->]|(e' & He' & Hel' & -> & Hgt' & Hmax')]; simpl.
  - tauto.
  - exfalso. rewrite <- Hperm in He'.
    exact (Qclt_not_le _ _ Hgt' (Hall e' He' Hel')).
  - exfalso. rewrite Hperm in He.
    exact (Qclt_not_le _ _ Hgt (Hall' e He Hel)).
  - split; [|split; discriminate].
    apply Qcle_antisym.
    + apply Hmax'; [rewrite <- Hperm|]; assumption.
    + apply Hmax; [rewrite Hperm|]; assumption.
Qed.

Lemma df_empty_perm (df df' : list staged_row) :
  df ≡ₚ df' -> df_empty df = df_empty df'.
Proof.
  intros Hperm. unfold df_empty.
  induction Hperm as [|x l l' _ IH|x y l|l1 l2 l3 _ IH1 _ IH2]; simpl.
  - reflexivity.
  - rewrite IH. reflexivity.
  - rewrite !andb_assoc, (andb_comm (bool_decide (y = ∅))). reflexivity.
  - congruence.
Qed.

(** X6. The order of the registry frame matters for ties only: matching
    against a permutation of the registry gives the same unmatched bucket
    and, in the ambiguous bucket, the same web rows with the same scores
    in the same order. *)
Theorem registry_order_keeps_scores abr_df abr_df' cc_df hi lo :
  abr_df ≡ₚ abr_df' ->
  let '(_, amb, unm) := fuzzy_match_entities ratio abr_df cc_df hi lo in
  let '(_, amb', unm') := fuzzy_match_entities ratio abr_df' cc_df hi lo in
  map (fun c => (cc c, score c)) amb = map (fun c => (cc c, score c)) amb'
  /\ unm = unm'.
Proof.
  intros Hperm.
  destruct (df_empty abr_df || df_empty cc_df) eqn:Hguard.
  - assert (Hguard' : df_empty abr_df' || df_empty cc_df = true)
      by (rewrite <- (df_empty_perm _ _ Hperm); exact Hguard).
    apply orb_true_iff in Hguard, Hguard'.
    rewrite !fuzzy_match_guard by assumption. auto.
  - apply orb_false_iff in Hguard as [Ha Hc].
    assert (Ha' : df_empty abr_df' = false)
      by (rewrite <- (df_empty_perm _ _ Hperm); exact Ha).
    rewrite !fuzzy_match_nonempty by assumption.
    assert (Hfill : fillna abr_df ≡ₚ fillna abr_df')
      by (unfold fillna; apply Permutation_map, Hperm).
    induction (fillna cc_df) as [|r rows [IHa IHu]]; [auto|].
    simpl. rewrite !map_app, IHa, IHu.
    destruct (best_match_perm (cc_name_of r) _ _ Hfill) as [Hs Hn].
    unfold match_step.
    destruct (truthy (cc_name_of r)); simpl; [|auto].
    destruct (best_match ratio (cc_name_of r) (fillna abr_df)) as [s [e|]];
      destruct (best_match ratio (cc_name_of r) (fillna abr_df')) as [s' [e'|]];
      simpl in *; subst; auto.
    + destruct Hn as [_ Hn]. specialize (Hn eq_refl). discriminate.
    + destruct Hn as [Hn _]. specialize (Hn eq_refl). discriminate.
Qed.

(** X7. A longer registry never lowers a best score: after the inner
    loop over a registry followed by more rows, the best score is at least
    the one over the registry alone, and a mention that had a best row
    still has one. *)
Theorem more_registry_rows_never_lower name (l extra : list (gmap string string)) :
  (fst (best_match ratio name l) <= fst (best_match ratio name (l ++ extra)))%Qc
  /\ (is_Some (snd (best_match ratio name l)) ->
      is_Some (snd (best_match ratio name (l ++ extra)))).
Proof.
  destruct (best_match_max name l)
    as [[Hall ->]|(e & He & Hel & -> & Hgt & Hmax)];
    destruct (best_match_max name (l ++ extra))
      as [[Hall' ->]|(e' & He' & Hel' & -> & Hgt' & Hmax')]; simpl.
  - split; [apply Qcle_refl|]. intros [? ?]. discriminate.
  - split; [apply Qclt_le_weak, Hgt' | eauto].
  - exfalso. apply (Qclt_not_le _ _ Hgt). apply Hall'; [|exact Hel].
    apply elem_of_app. left. exact He.
  - split; [|eauto]. apply Hmax'; [|exact Hel].
    apply elem_of_app. left. exact He.
Qed.

End Scorer.

Import Samples.

Lemma every_mention_in_one_bucket_witness :
  (length (snd (fst (fuzzy_match_entities same_name_ratio [acme_abr]
                       [acme_cc; blank_cc] 95 0)))
   + length (snd (fuzzy_match_entities same_name_ratio [acme_abr]
                    [acme_cc; blank_cc] 95 0))
   = length [acme_cc; blank_cc])%nat.
Proof.
  pose proof (every_mention_in_one_bucket same_name_ratio [acme_abr]
                [acme_cc; blank_cc] 95 0) as H.
  destruct (fuzzy_match_entities same_name_ratio [acme_abr]
              [acme_cc; blank_cc] 95 0) as [[high ambiguous] unmatched].
  apply H; vm_compute; reflexivity.
Defined.

Lemma candidates_are_consistent_witness :
  score acme_pair
  = same_name_ratio (cc_name_of (cc acme_pair)) (abr_name_of (abr acme_pair)).
Proof.
  apply (candidates_are_consistent same_name_ratio [acme_abr; acme_abr_twin]
           [acme_cc; blank_cc] 95 0 acme_pair).
  vm_compute. left.
Defined.

Lemma web_frames_concatenate_witness :
  fuzzy_match_entities same_name_ratio [acme_abr] ([acme_cc] ++ [blank_cc]) 95 0
  = ([], [acme_pair] ++ [], [] ++ [fillna_row blank_cc]).
Proof.
  pose proof (web_frames_concatenate same_name_ratio [acme_abr]
                [acme_cc] [blank_cc] 95 0) as H.
  change (fuzzy_match_entities same_name_ratio [acme_abr] [acme_cc] 95 0)
    with (@nil candidate, [acme_pair], @nil (gmap string string)) in H.
  change (fuzzy_match_entities same_name_ratio [acme_abr] [blank_cc] 95 0)
    with (@nil candidate, @nil candidate, [fillna_row blank_cc]) in H.
  apply H; vm_compute; reflexivity.
Defined.

Lemma registry_order_keeps_scores_witness :
  map (fun c => (cc c, score c))
      (snd (fst (fuzzy_match_entities same_name_ratio
                   [acme_abr; acme_abr_twin] [acme_cc] 95 0)))
  = map (fun c => (cc c, score c))
      (snd (fst (fuzzy_match_entities same_name_ratio
                   [acme_abr_twin; acme_abr] [acme_cc] 95 0))).
Proof.
  pose proof (registry_order_keeps_scores same_name_ratio
                [acme_abr; acme_abr_twin] [acme_abr_twin; acme_abr]
                [acme_cc] 95 0 (perm_swap _ _ _)) as H.
  destruct (fuzzy_match_entities same_name_ratio [acme_abr; acme_abr_twin]
              [acme_cc] 95 0) as [[h1 a1] u1].
  destruct (fuzzy_match_entities same_name_ratio [acme_abr_twin; acme_abr]
              [acme_cc] 95 0) as [[h2 a2] u2].
  exact (proj1 H).
Defined.

End MatcherMore.

(** ** More on the oracle client *)

Module ReviewMore.
Import Text Matcher Review ReviewFacts.

Section Oracle.
Variable oracle : nat -> string -> reply.

Lemma slice_index_negative K n :
  K < 0 -> slice_index K n = (n - Z.to_nat (- K))%nat.
Proof.
  intros HK. unfold slice_index.
  destruct (Z.ltb_spec K 0); lia.
Qed.

(** X8. A negative cap does not switch the reviewal off. With the oracle
    available and [K < 0], the slices are Python's: every item but the
    last [-K] is sent to the oracle, in input order, and only the last
    [-K] items (all of them when the list is shorter) are deferred. *)
Theorem negative_cap_reviews_front cfg (l : list candidate) K w :
  client_available cfg = true -> api_key_set cfg = true -> K < 0 ->
  let r := llm_review_ambiguous oracle cfg l K w in
  let sent := (length l - Z.to_nat (- K))%nat in
  calls (snd r) = calls w ++ map build_llm_prompt (take sent l)
  /\ (exists kept,
        snd (fst r) = kept ++ drop sent l /\ kept `sublist_of` take sent l)
  /\ length (drop sent l) = Nat.min (length l) (Z.to_nat (- K)).
Proof.
  intros Hc Hk HK. cbv zeta.
  destruct (review_available oracle cfg l K w Hc Hk) as (_ & Hstill & Hcalls & _).
  unfold slice_to, slice_from in *.
  rewrite slice_index_negative in * by exact HK.
  split; [exact Hcalls|]. split.
  - eexists. split; [exact Hstill|]. apply sublist_filter.
  - rewrite length_drop. lia.
Qed.

Lemma accepted_picked cfg (l : list candidate) K w :
  exists picked,
    picked `sublist_of` slice_to K l
    /\ fst (fst (llm_review_ambiguous oracle cfg l K w)) = map retag picked.
Proof.
  destruct (client_available cfg) eqn:Hc; [destruct (api_key_set cfg) eqn:Hk|].
  - destruct (review_available oracle cfg l K w Hc Hk) as (-> & _).
    eexists. split; [apply accepted_from_sublist | reflexivity].
  - rewrite (review_unavailable oracle cfg l K w) by auto.
    exists []. split; [apply sublist_nil_l | reflexivity].
  - rewrite (review_unavailable oracle cfg l K w) by auto.
    exists []. split; [apply sublist_nil_l | reflexivity].
Qed.

Lemma slice_to_elem {A} K (l : list A) x : x ∈ slice_to K l -> x ∈ l.
Proof.
  intros Hx. apply elem_of_take in Hx as (i & Hi & _).
  eapply list_elem_of_lookup_2; eauto.
Qed.

Lemma still_whole cfg (l : list candidate) K w :
  (forall m, m ∈ l -> method m <> "llm_disambiguation") ->
  snd (fst (llm_review_ambiguous oracle cfg l K w)) = l.
Proof.
  intros Hfresh.
  destruct (client_available cfg) eqn:Hc; [destruct (api_key_set cfg) eqn:Hk|].
  - apply still_ambiguous_whole_input; assumption.
  - rewrite (review_unavailable oracle cfg l K w) by auto. reflexivity.
  - rewrite (review_unavailable oracle cfg l K w) by auto. reflexivity.
Qed.

(** X9. Whatever the configuration, the cap and the oracle: the accepted
    list is made of re-tagged copies of reviewed items, picked in input
    order. Each accepted item carries the tag [llm_disambiguation] and the
    web row, registry row and score of an input item, and there are no
    more accepted items than reviewed ones. *)
Theorem accepted_are_retagged_inputs cfg (l : list candidate) K w :
  let accepted := fst (fst (llm_review_ambiguous oracle cfg l K w)) in
  (exists picked,
     picked `sublist_of` slice_to K l /\ accepted = map retag picked)
  /\ (forall a, a ∈ accepted ->
        method a = "llm_disambiguation"
        /\ exists m, m ∈ l /\ cc a = cc m /\ abr a = abr m /\ score a = score m)
  /\ (length accepted <= length (slice_to K l))%nat.
Proof.
  cbv zeta. destruct (accepted_picked cfg l K w) as (picked & Hsub & ->).
  split; [eauto|]. split.
  - intros a Ha. apply list_elem_of_fmap in Ha as (m & -> & Hm).
    split; [reflexivity|]. exists m. repeat split.
    eapply slice_to_elem, elem_of_sublist; eauto.
  - rewrite length_map. apply sublist_length, Hsub.
Qed.

(** The audit log through the loop: lines are only added, one for each
    reply that carries a body. *)
Lemma review_loop_log (items : list candidate) :
  forall w approved,
    exists entries,
      audit_log (fst (fold_left (review_item oracle) items (w, approved)))
      = audit_log w ++ entries
      /\ map fst entries `sublist_of` map build_llm_prompt items
      /\ ((forall n p, oracle n p <> CallFails) ->
          map fst entries = map build_llm_prompt items).
Proof.
  induction items as [|amb items IH]; intros w approved.
  - exists []. simpl. rewrite app_nil_r. repeat split; constructor.
  - cbn [fold_left]. unfold review_item at 2.
    destruct (oracle (length (calls w)) (build_llm_prompt amb))
      as [|content parsed] eqn:Hreply.
    + destruct (IH (World (calls w ++ [build_llm_prompt amb]) (audit_log w))
                   approved) as (entries & Hlog & Hsub & Hall).
      exists entries. simpl in Hlog. split; [exact Hlog|]. split.
      * simpl. apply sublist_cons, Hsub.
      * intros Hok. exfalso. exact (Hok _ _ Hreply).
    + set (w1 := World (calls w ++ [build_llm_prompt amb])
                       (audit_log w ++ [(build_llm_prompt amb, content)])).
      assert (Hstep : exists approved1,
                match decide_match parsed with
                | Returns true => (w1, approved ++ [retag amb])
                | Returns false => (w1, approved)
                | Raises => (w1, approved)
                end = (w1, approved1)).
      { destruct (decide_match parsed) as [[|]|]; eauto. }
      destruct Hstep as (approved1 & ->).
      destruct (IH w1 approved1) as (entries & Hlog & Hsub & Hall).
      exists ((build_llm_prompt amb, content) :: entries).
      rewrite Hlog. subst w1. simpl. rewrite <- app_assoc. simpl.
      split; [reflexivity|]. split.
      * apply sublist_skip, Hsub.
      * intros Hok. rewrite (Hall Hok). reflexivity.
Qed.

(** X10. The audit log is append-only and logs before it judges. With the
    oracle available, the lines present before the call are kept, and
    the lines added are for reviewed items, in review order; when no call
    fails there is exactly one new line per reviewed item, accepted or
    not, parseable or not. *)
Theorem audit_log_appended cfg (l : list candidate) K w :
  client_available cfg = true -> api_key_set cfg = true ->
  exists entries,
    audit_log (snd (llm_review_ambiguous oracle cfg l K w))
    = audit_log w ++ entries
    /\ map fst entries `sublist_of` map build_llm_prompt (slice_to K l)
    /\ ((forall n p, oracle n p <> CallFails) ->
        map fst entries = map build_llm_prompt (slice_to K l)).
Proof.
  intros Hc Hk. unfold llm_review_ambiguous.
  destruct l as [|m l].
  - exists []. simpl. rewrite app_nil_r.
    unfold slice_to. rewrite take_nil. repeat split; constructor.
  - rewrite Hc, Hk. simpl orb. cbv iota.
    destruct (review_loop_log (slice_to K (m :: l)) w [])
      as (entries & Hlog & Hsub & Hall).
    destruct (fold_left (review_item oracle) (slice_to K (m :: l)) (w, []))
      as [w' approved].
    exists entries. simpl in *. auto.
Qed.

(** X11. When no input item already carries the tag [llm_disambiguation]
    (the matcher's candidates never do), the still-ambiguous list is the
    whole input, in order: the comparison against the re-tagged copies
    removes nothing, so the original of every accepted item is returned as
    still ambiguous too. *)
Theorem fresh_input_returned_whole cfg (l : list candidate) K w :
  (forall m, m ∈ l -> method m <> "llm_disambiguation") ->
  let r := fst (llm_review_ambiguous oracle cfg l K w) in
  snd r = l
  /\ forall a, a ∈ fst r -> exists m, m ∈ snd r /\ a = retag m.
Proof.
  intros Hfresh. cbv zeta. rewrite (still_whole cfg l K w Hfresh).
  split; [reflexivity|]. intros a Ha.
  destruct (accepted_picked cfg l K w) as (picked & Hsub & Hacc).
  rewrite Hacc in Ha. apply list_elem_of_fmap in Ha as (m & -> & Hm).
  exists m. split; [|reflexivity].
  eapply slice_to_elem, elem_of_sublist; eauto.
Qed.

(** X12. Reviewing again what came back as still ambiguous makes no
    progress. For an input without the tag [llm_disambiguation], with the
    oracle available and the same cap, the second run sends the prompts of
    the same first items again and the deferred items are still deferred. *)
Theorem second_review_repeats_first cfg (l : list candidate) K w :
  client_available cfg = true -> api_key_set cfg = true ->
  (forall m, m ∈ l -> method m <> "llm_disambiguation") ->
  let r1 := llm_review_ambiguous oracle cfg l K w in
  let r2 := llm_review_ambiguous oracle cfg (snd (fst r1)) K (snd r1) in
  calls (snd r2)
  = calls w ++ map build_llm_prompt (slice_to K l)
      ++ map build_llm_prompt (slice_to K l)
  /\ snd (fst r2) = l.
Proof.
  intros Hc Hk Hfresh. cbv zeta.
  rewrite (still_whole cfg l K w Hfresh).
  destruct (review_available oracle cfg l K w Hc Hk) as (_ & _ & Hcalls1 & _).
  destruct (review_available oracle cfg l K
              (snd (llm_review_ambiguous oracle cfg l K w)) Hc Hk)
    as (_ & _ & Hcalls2 & _).
  rewrite Hcalls2, Hcalls1, <- app_assoc.
  split; [reflexivity|]. apply still_whole. exact Hfresh.
Qed.

End Oracle.

Import Samples.

(** A cap of -1 on three items: two prompts are sent, the last item is
    deferred. *)
Lemma negative_cap_reviews_front_witness :
  calls (snd (llm_review_ambiguous oracle_down ready
                [acme_pair; acme_pair_twin; acme_pair] (-1) fresh))
  = calls fresh
    ++ map build_llm_prompt
         (take (3 - Z.to_nat (- (-1))) [acme_pair; acme_pair_twin; acme_pair]).
Proof.
  apply (negative_cap_reviews_front oracle_down ready
           [acme_pair; acme_pair_twin; acme_pair] (-1) fresh);
    [reflexivity | reflexivity | lia].
Defined.

Lemma audit_log_appended_witness :
  exists entries,
    audit_log (snd (llm_review_ambiguous oracle_garbled_first ready
                      [acme_pair; acme_pair_twin] 10 fresh))
    = audit_log fresh ++ entries
    /\ map fst entries
       `sublist_of` map build_llm_prompt (slice_to 10 [acme_pair; acme_pair_twin])
    /\ ((forall n p, oracle_garbled_first n p <> CallFails) ->
        map fst entries
        = map build_llm_prompt (slice_to 10 [acme_pair; acme_pair_twin])).
Proof.
  apply (audit_log_appended oracle_garbled_first ready
           [acme_pair; acme_pair_twin] 10 fresh); reflexivity.
Defined.

Lemma fresh_input_returned_whole_witness :
  snd (fst (llm_review_ambiguous (oracle_says (verdict true "high")) ready
              [acme_pair; acme_pair_twin] 10 fresh))
  = [acme_pair; acme_pair_twin].
Proof.
  apply (fresh_input_returned_whole (oracle_says (verdict true "high")) ready
           [acme_pair; acme_pair_twin] 10 fresh).
  intros m Hm.
  apply elem_of_cons in Hm as [->|Hm]; [discriminate|].
  apply list_elem_of_singleton in Hm as ->. discriminate.
Defined.

Lemma accepted_are_retagged_inputs_witness :
  method (retag acme_pair) = "llm_disambiguation".
Proof.
  apply (accepted_are_retagged_inputs (oracle_says (verdict true "high")) ready
           [acme_pair] 10 fresh).
  vm_compute. left.
Defined.

Lemma second_review_repeats_first_witness :
  snd (fst (llm_review_ambiguous (oracle_says (verdict true "high")) ready
              (snd (fst (llm_review_ambiguous
                           (oracle_says (verdict true "high")) ready
                           [acme_pair; acme_pair_twin] 1 fresh)))
              1
              (snd (llm_review_ambiguous (oracle_says (verdict true "high"))
                      ready [acme_pair; acme_pair_twin] 1 fresh))))
  = [acme_pair; acme_pair_twin].
Proof.
  apply (second_review_repeats_first (oracle_says (verdict true "high")) ready
           [acme_pair; acme_pair_twin] 1 fresh); [reflexivity | reflexivity |].
  intros m Hm.
  apply elem_of_cons in Hm as [->|Hm]; [discriminate|].
  apply list_elem_of_singleton in Hm as ->. discriminate.
Defined.

End ReviewMore.

(** ** More on the writer *)

Module WriterMore.
Import Text Matcher Review Writer WriterRows WriterFacts.

(** What a successful [unified_record] puts in the row. *)
Lemma unified_record_fields m id row :
  unified_record m id = Returns row ->
  company_id row = id
  /\ abr m !! "abn" = Some (u_abn row)
  /\ match_confidence row = score m
  /\ match_method row = method m
  /\ DateParse.parse_date_safe
       (DateParse.VText (get_or_empty (abr m) "start_date_raw"))
     = Returns (start_date row).
Proof.
  unfold unified_record, get_or_empty.
  destruct (DateParse.parse_date_safe _) as [start_date|] eqn:Hdate;
    [|discriminate].
  destruct (abr m !! "abn") as [abn|]; [|discriminate].
  intros [= <-]. simpl. repeat split; reflexivity.
Qed.

Section Constraints.
Variable admits : list unified_row -> unified_row -> bool.

Lemma insert_match_shape s m s' :
  insert_match admits s m = Returns s' ->
  exists row,
    company_id row = next_company_id s
    /\ mirrors row m
    /\ s' = Store (company_unified s ++ [row])
                  (company_source_link s ++ links_of (row, m))
                  (next_company_id s + 1).
Proof.
  unfold insert_match.
  destruct (unified_record m (next_company_id s)) as [row|] eqn:Hrow;
    [|discriminate].
  destruct (admits (company_unified s) row); [|discriminate]. simpl.
  destruct (cc m !! "commoncrawl_id") as [key|] eqn:Hkey; [|discriminate].
  intros [= <-]. apply unified_record_fields in Hrow as (Hid & Hrest).
  exists row. split; [exact Hid|]. split; [exact Hrest|].
  unfold links_of, get_or_empty. simpl. rewrite Hkey, Hid, <- app_assoc.
  reflexivity.
Qed.

Lemma insert_all_shape (matches : list candidate) :
  forall s s',
    insert_all admits s matches = Returns s' ->
    exists rows,
      company_unified s' = company_unified s ++ rows
      /\ Forall2 mirrors rows matches
      /\ map company_id rows
         = seqZ (next_company_id s) (Z.of_nat (length matches))
      /\ company_source_link s'
         = company_source_link s ++ flat_map links_of (zip rows matches)
      /\ next_company_id s'
         = next_company_id s + Z.of_nat (length matches).
Proof.
  induction matches as [|m rest IH]; intros s s'; simpl insert_all.
  - intros [= <-]. exists []. simpl. rewrite !app_nil_r.
    repeat split; [constructor | lia].
  - destruct (insert_match admits s m) as [s1|] eqn:H1; [|discriminate].
    intros Hrest.
    apply insert_match_shape in H1 as (row & Hid & Hmir & ->).
    apply IH in Hrest as (rows & Hu & Hall & Hids & Hl & Hn).
    simpl in Hu, Hids, Hl, Hn.
    exists (row :: rows). rewrite Hu, Hl, Hn, <- !app_assoc.
    split; [reflexivity|]. split; [constructor; assumption|]. split.
    + simpl length. rewrite Nat2Z.inj_succ, seqZ_cons by lia.
      simpl. rewrite Hid, Hids. do 2 f_equal; lia.
    + split; [reflexivity|]. simpl length. lia.
Qed.

(** X13. After a write of a non-empty list that returns, the unified
    table has one row per candidate, in order, keyed 1, 2, ..., n; each
    row carries the ABN, the score, the method and the parsed start date
    of its candidate; and the link table is, row by row, an ABR link to
    the ABN followed by a COMMONCRAWL link to the web row's id, both under
    the key of that row. The next key is [n + 1]. *)
Theorem written_rows_and_links (matches : list candidate) (s : store) :
  matches <> [] ->
  snd (write_matches_to_db admits matches s) = Returns tt ->
  let s' := fst (write_matches_to_db admits matches s) in
  Forall2 mirrors (company_unified s') matches
  /\ map company_id (company_unified s')
     = seqZ 1 (Z.of_nat (length matches))
  /\ company_source_link s'
     = flat_map links_of (zip (company_unified s') matches)
  /\ next_company_id s' = 1 + Z.of_nat (length matches).
Proof.
  intros Hne Hok. cbv zeta. unfold write_matches_to_db in *.
  destruct matches as [|m rest]; [contradiction|].
  unfold truncate in *.
  destruct (insert_all admits (Store [] [] 1) (m :: rest)) as [s'|] eqn:Hins;
    [|discriminate].
  apply insert_all_shape in Hins as (rows & Hu & Hall & Hids & Hl & Hn).
  simpl in Hu, Hids, Hl, Hn. cbn [fst]. rewrite Hu, Hl. auto.
Qed.

Lemma insert_match_missing_key s m :
  abr m !! "abn" = None \/ cc m !! "commoncrawl_id" = None ->
  insert_match admits s m = Raises.
Proof.
  unfold insert_match, unified_record. intros [Habn|Hkey].
  - rewrite Habn. destruct (DateParse.parse_date_safe _); reflexivity.
  - destruct (DateParse.parse_date_safe _); [|reflexivity].
    destruct (abr m !! "abn"); [|reflexivity].
    destruct (admits _ _); [|reflexivity]. simpl. rewrite Hkey. reflexivity.
Qed.

Lemma insert_all_missing_key (matches : list candidate) m :
  m ∈ matches ->
  abr m !! "abn" = None \/ cc m !! "commoncrawl_id" = None ->
  forall s, insert_all admits s matches = Raises.
Proof.
  intros Hin Hmiss. induction matches as [|m0 rest IH]; intros s.
  - inversion Hin.
  - simpl. apply elem_of_cons in Hin as [<-|Hin].
    + rewrite insert_match_missing_key by exact Hmiss. reflexivity.
    + destruct (insert_match admits s m0); [apply IH, Hin | reflexivity].
Qed.

(** X14. A candidate without an [abn] in its registry row, or without a
    [commoncrawl_id] in its web row, anywhere in the list, makes the whole
    write fail: the error is re-raised and the store is left as it was
    before the call, rows written earlier in the run included. *)
Theorem missing_key_rolls_back (matches : list candidate) (s : store) m :
  m ∈ matches ->
  abr m !! "abn" = None \/ cc m !! "commoncrawl_id" = None ->
  write_matches_to_db admits matches s = (s, Raises).
Proof.
  intros Hin Hmiss. unfold write_matches_to_db.
  destruct matches as [|m0 rest]; [inversion Hin|].
  rewrite (insert_all_missing_key (m0 :: rest) m Hin Hmiss). reflexivity.
Qed.

End Constraints.

Import Samples MoreSamples.

Lemma written_rows_and_links_witness :
  map company_id
      (company_unified
         (fst (write_matches_to_db admit_all [retag acme_pair] stale_store)))
  = seqZ 1 (Z.of_nat (length [retag acme_pair])).
Proof.
  apply (written_rows_and_links admit_all [retag acme_pair] stale_store).
  - discriminate.
  - vm_compute. reflexivity.
Defined.

(** The first pair is complete, the second has no [commoncrawl_id]: the
    run fails and the rows of the earlier run are still there. *)
Lemma missing_key_rolls_back_witness :
  write_matches_to_db admit_all [retag acme_pair; keyless_pair] stale_store
  = (stale_store, Raises).
Proof.
  apply (missing_key_rolls_back admit_all [retag acme_pair; keyless_pair]
           stale_store keyless_pair).
  - right. left.
  - right. reflexivity.
Defined.

End WriterMore.

(** ** The pipeline *)

Module PipelineFacts.
Import Text Matcher Review Writer WriterRows Pipeline.
Import MatcherFacts MatcherMore ReviewFacts ReviewMore WriterFacts WriterMore.

Section Run.
Variable ratio : string -> string -> Qc.
Variable oracle : nat -> string -> reply.
Variable admits : list unified_row -> unified_row -> bool.
Variable cfg : config.

Lemma fuzzy_high_empty abr_df cc_df hi lo :
  fst (fst (fuzzy_match_entities ratio abr_df cc_df hi lo)) = [].
Proof.
  destruct (df_empty abr_df || df_empty cc_df) eqn:Hguard.
  - apply orb_true_iff in Hguard. rewrite fuzzy_match_guard by exact Hguard.
    reflexivity.
  - apply orb_false_iff in Hguard as [Ha Hc].
    rewrite fuzzy_match_nonempty by assumption. reflexivity.
Qed.

Lemma fuzzy_tags abr_df cc_df hi lo c :
  c ∈ snd (fst (fuzzy_match_entities ratio abr_df cc_df hi lo)) ->
  method c <> "llm_disambiguation".
Proof.
  destruct (df_empty abr_df || df_empty cc_df) eqn:Hguard.
  - apply orb_true_iff in Hguard. rewrite fuzzy_match_guard by exact Hguard.
    intros Hin. inversion Hin.
  - apply orb_false_iff in Hguard as [Ha Hc].
    rewrite fuzzy_match_nonempty by assumption. simpl. intros Hin.
    apply in_ambiguous in Hin as (r & s & e & _ & _ & _ & ->). discriminate.
Qed.

(** [main] with the three calls laid out. *)
Lemma main_steps abr_df cc_df w s :
  let m := fuzzy_match_entities ratio abr_df cc_df 95 0 in
  let r := llm_review_ambiguous oracle cfg (snd (fst m)) LLM_MAX_REVIEWS w in
  let wr := write_matches_to_db admits (fst (fst r)) s in
  main ratio oracle admits cfg abr_df cc_df w s
  = (snd r, fst wr,
     match snd wr with
     | Raises => Raises
     | Returns _ =>
         Returns (Summary (length abr_df) (length cc_df) 0
                          (length (fst (fst r))) (length (fst (fst r)))
                          (length (snd (fst r))) (length (snd m)))
     end).
Proof.
  cbv zeta. unfold main.
  pose proof (fuzzy_high_empty abr_df cc_df 95 0) as Hhigh.
  destruct (fuzzy_match_entities ratio abr_df cc_df 95 0) as [[high amb] unm].
  simpl in Hhigh. subst high. simpl.
  destruct (llm_review_ambiguous oracle cfg amb LLM_MAX_REVIEWS w)
    as [[approved remaining] w']. simpl.
  destruct (write_matches_to_db admits approved s) as [s' [[]|]]; reflexivity.
Qed.

(** X15. Without an oracle (no client or no API key) a run of [main]
    sends nothing, logs nothing and leaves the store untouched, rows of an
    earlier run included: nothing is approved, so the writer gets the
    empty list and returns before truncating. The summary reports every
    candidate as still ambiguous. *)
Theorem main_without_oracle abr_df cc_df w s :
  client_available cfg = false \/ api_key_set cfg = false ->
  let m := fuzzy_match_entities ratio abr_df cc_df 95 0 in
  main ratio oracle admits cfg abr_df cc_df w s
  = (w, s,
     Returns (Summary (length abr_df) (length cc_df) 0 0 0
                      (length (snd (fst m))) (length (snd m)))).
Proof.
  intros Hdown. cbv zeta. rewrite main_steps. cbv zeta.
  rewrite (review_unavailable oracle cfg _ LLM_MAX_REVIEWS w Hdown).
  reflexivity.
Qed.

(** X16. What a run of [main] can do to the store. If the writer raises,
    or if nothing was approved, the store is as before the run. Otherwise
    the unified table holds exactly the approved pairs, in the order of
    their approval: one row per pair, mirroring it (its [abn], score,
    method and parsed start date), keyed 1, 2, ... and followed in the link
    table by the two links of that pair. The approved pairs are re-tagged
    copies of candidates among the first [LLM_MAX_REVIEWS] = 10, so at most
    10 rows are written, every one with the method [llm_disambiguation],
    and no candidate is ever written as a high-confidence match. *)
Theorem main_writes_only_approved abr_df cc_df w s :
  let amb := snd (fst (fuzzy_match_entities ratio abr_df cc_df 95 0)) in
  let approved :=
    fst (fst (llm_review_ambiguous oracle cfg amb LLM_MAX_REVIEWS w)) in
  let '(_, s', out) := main ratio oracle admits cfg abr_df cc_df w s in
  (out = Raises -> s' = s)
  /\ (exists picked,
        picked `sublist_of` slice_to LLM_MAX_REVIEWS amb
        /\ approved = map retag picked)
  /\ forall sm, out = Returns sm ->
       high_confidence sm = 0%nat
       /\ total_written sm = llm_approved_count sm
       /\ llm_approved_count sm = length approved
       /\ (llm_approved_count sm <= 10)%nat
       /\ (llm_approved_count sm = 0%nat -> s' = s)
       /\ (llm_approved_count sm <> 0%nat ->
           row_counts s'
           = (llm_approved_count sm, (2 * llm_approved_count sm)%nat)
           /\ Forall (fun row => match_method row = "llm_disambiguation")
                     (company_unified s')
           /\ Forall2 mirrors (company_unified s') approved
           /\ map company_id (company_unified s')
              = seqZ 1 (Z.of_nat (length approved))
           /\ company_source_link s'
              = flat_map links_of (zip (company_unified s') approved)).
Proof.
  cbv zeta. rewrite main_steps. cbv zeta.
  set (amb := snd (fst (fuzzy_match_entities ratio abr_df cc_df 95 0))).
  destruct (accepted_picked oracle cfg amb LLM_MAX_REVIEWS w)
    as (picked & Hsub & Hacc).
  rewrite Hacc.
  assert (Hlen : (length (map retag picked) <= 10)%nat).
  { rewrite length_map. apply sublist_length in Hsub.
    unfold slice_to in Hsub. rewrite length_take in Hsub.
    change (slice_index LLM_MAX_REVIEWS (length amb)) with 10%nat in Hsub.
    lia. }
  unfold write_matches_to_db.
  destruct (map retag picked) as [|a rest] eqn:Hmap.
  - simpl. split; [discriminate|]. split; [eauto|]. intros sm [= <-]. simpl.
    split; [reflexivity|]. split; [reflexivity|]. split; [reflexivity|].
    split; [lia|]. split; [reflexivity|]. intros Hne. contradiction.
  - unfold truncate.
    destruct (insert_all admits (Store [] [] 1) (a :: rest)) as [s'|] eqn:Hins;
      cbn [fst snd].
    + split; [discriminate|]. split; [eauto|].
      intros sm [= <-]. cbn [high_confidence
        total_written llm_approved_count].
      split; [reflexivity|]. split; [reflexivity|]. split; [reflexivity|].
      split; [exact Hlen|]. split; [discriminate|]. intros _.
      pose proof (insert_all_counts admits _ _ _ Hins) as (Hu & Hl & _).
      apply insert_all_shape in Hins as (rows & Hrows & Hall & Hids & Hlinks & _).
      simpl in Hu, Hl, Hrows, Hids, Hlinks. split.
      * unfold row_counts. rewrite Hu, Hl. reflexivity.
      * rewrite Hrows. split; [|split; [exact Hall|split; assumption]].
        rewrite <- Hmap in Hall.
        clear -Hall. revert rows Hall.
        induction picked as [|m picked IH]; intros rows Hall;
          inversion Hall as [|row m' rows' ms' Hmir Hrest]; subst;
          constructor.
        -- destruct Hmir as (_ & _ & -> & _). reflexivity.
        -- apply IH, Hrest.
    + split; [reflexivity|]. split; [eauto|]. intros sm. discriminate.
Qed.

(** X17. The summary of a run that reaches it counts every candidate as
    still ambiguous, approved or not: past the empty-frame guard the
    remaining-ambiguous and the unmatched counts add up to the number of
    web rows, whatever number was approved; behind the guard both are 0. *)
Theorem main_summary_counts abr_df cc_df w s sm :
  snd (main ratio oracle admits cfg abr_df cc_df w s) = Returns sm ->
  cc_companies sm = length cc_df
  /\ (df_empty abr_df = false -> df_empty cc_df = false ->
      (ambiguous_remaining sm + unmatched_count sm = length cc_df)%nat)
  /\ (df_empty abr_df = true \/ df_empty cc_df = true ->
      ambiguous_remaining sm = 0%nat /\ unmatched_count sm = 0%nat).
Proof.
  rewrite main_steps. cbv zeta. cbn [snd].
  destruct (snd (write_matches_to_db admits _ s)) as [[]|]; [|discriminate].
  intros [= <-]. cbn [cc_companies ambiguous_remaining unmatched_count].
  rewrite still_whole by (intros m Hm; eapply fuzzy_tags; exact Hm).
  split; [reflexivity|]. split.
  - intros Ha Hc. rewrite fuzzy_match_nonempty by assumption. simpl.
    destruct (buckets_shape ratio (fillna abr_df) (fillna cc_df)) as (Hn & _).
    cbv zeta in Hn. rewrite Hn. unfold fillna. apply length_map.
  - intros Hguard. rewrite fuzzy_match_guard by exact Hguard. auto.
Qed.

End Run.

Import Samples.

Lemma main_without_oracle_witness :
  main same_name_ratio (oracle_says (verdict true "high")) admit_all no_key
       [acme_abr] [acme_cc; blank_cc] fresh stale_store
  = (fresh, stale_store, Returns (Summary 1 2 0 0 0 1 1)).
Proof.
  apply (main_without_oracle same_name_ratio (oracle_says (verdict true "high"))
           admit_all no_key [acme_abr] [acme_cc; blank_cc] fresh stale_store).
  right. reflexivity.
Defined.

(** The end-to-end scenario: one approved pair, one unified row and two
    link rows written over the rows of the earlier run; the approved pair
    is also counted as still ambiguous. *)
Example main_end_to_end :
  let '(_, s', out) :=
    main same_name_ratio (oracle_says (verdict true "high")) admit_all ready
         [acme_abr] [acme_cc; blank_cc] fresh stale_store in
  row_counts s' = (1%nat, 2%nat)
  /\ out = Returns (Summary 1 2 0 1 1 1 1).
Proof. vm_compute. split; reflexivity. Qed.

Lemma main_writes_only_approved_witness :
  Forall (fun row => match_method row = "llm_disambiguation")
         (company_unified
            (snd (fst (main same_name_ratio (oracle_says (verdict true "high"))
                            admit_all ready [acme_abr] [acme_cc; blank_cc]
                            fresh stale_store)))).
Proof.
  pose proof (main_writes_only_approved same_name_ratio
                (oracle_says (verdict true "high")) admit_all ready
                [acme_abr] [acme_cc; blank_cc] fresh stale_store) as H.
  destruct (main same_name_ratio (oracle_says (verdict true "high")) admit_all
              ready [acme_abr] [acme_cc; blank_cc] fresh stale_store)
    as [[w' s'] out] eqn:Hrun.
  assert (Hout : out = Returns (Summary 1 2 0 1 1 1 1)).
  { vm_compute in Hrun. injection Hrun as _ _ <-. reflexivity. }
  destruct H as (_ & _ & H).
  destruct (H _ Hout) as (_ & _ & _ & _ & _ & Hrows).
  simpl. apply Hrows. discriminate.
Defined.

Lemma main_summary_counts_witness :
  cc_companies (Summary 1 2 0 1 1 1 1) = length [acme_cc; blank_cc]
  /\ (df_empty [acme_abr] = false -> df_empty [acme_cc; blank_cc] = false ->
      (ambiguous_remaining (Summary 1 2 0 1 1 1 1)
       + unmatched_count (Summary 1 2 0 1 1 1 1)
       = length [acme_cc; blank_cc])%nat)
  /\ (df_empty [acme_abr] = true \/ df_empty [acme_cc; blank_cc] = true ->
      ambiguous_remaining (Summary 1 2 0 1 1 1 1) = 0%nat
      /\ unmatched_count (Summary 1 2 0 1 1 1 1) = 0%nat).
Proof.
  apply (main_summary_counts same_name_ratio (oracle_says (verdict true "high"))
           admit_all ready [acme_abr] [acme_cc; blank_cc] fresh stale_store).
  vm_compute. reflexivity.
Defined.

End PipelineFacts.

(** ** Names of web companies *)

Module IngestFacts.
Import Utf8 Text Matcher Ingest.

(** *** Characters, by enumeration of the 256 bytes *)

Ltac by_all_chars c :=
  destruct c as [[] [] [] [] [] [] [] []]; vm_compute; congruence.

Lemma lower_char_small c :
  (byte c <? 128) = true -> (byte (lower_char c) <? 128) = true.
Proof. by_all_chars c. Qed.

Lemma upper_char_small c :
  (byte c <? 128) = true -> (byte (upper_char c) <? 128) = true.
Proof. by_all_chars c. Qed.

Lemma alnum_upper_clean c :
  ascii_isalnum (byte c) = true -> is_capital_or_digit (upper_char c) = true.
Proof. by_all_chars c. Qed.

Lemma clean_upper_fixed c : is_capital_or_digit c = true -> upper_char c = c.
Proof. by_all_chars c. Qed.

Lemma clean_not_space c :
  is_capital_or_digit c = true -> is_space (byte c) = false.
Proof. by_all_chars c. Qed.

Lemma clean_small c : is_capital_or_digit c = true -> (byte c <? 128) = true.
Proof. by_all_chars c. Qed.

Lemma upper_char_idem c : upper_char (upper_char c) = upper_char c.
Proof. by_all_chars c. Qed.

Lemma byte_bounds c : (byte c <? 128) = true -> 0 <= byte c < 128.
Proof. intros H. apply Z.ltb_lt in H. unfold byte in *. lia. Qed.

(** *** ASCII text *)

Lemma is_ascii_of_list (l : list ascii) :
  is_ascii (string_of_list_ascii l) = true
  <-> Forall (fun c => (byte c <? 128) = true) l.
Proof.
  unfold is_ascii. rewrite list_ascii_of_string_of_list_ascii.
  rewrite forallb_forall, List.Forall_forall. reflexivity.
Qed.

Lemma small_lt (l : list ascii) :
  Forall (fun c => (byte c <? 128) = true) l ->
  Forall (fun c => byte c < 128) l.
Proof. apply Forall_impl. intros c. apply Z.ltb_lt. Qed.

Lemma lower_chars (s : string) :
  list_ascii_of_string (lower s) = map lower_char (list_ascii_of_string s).
Proof. induction s as [|c s IH]; [reflexivity|]. simpl. rewrite IH. reflexivity. Qed.

Lemma spell_ascii (l : list ascii) :
  spell (map (fun c => (byte c, [c])) l) = l.
Proof.
  unfold spell. induction l as [|c l IH]; [reflexivity|].
  simpl. f_equal. exact IH.
Qed.

Lemma points_small (l : list ascii) :
  Forall (fun c => (byte c <? 128) = true) l ->
  points l = map (fun c => (byte c, [c])) l.
Proof. intros Hl. apply Utf8Facts.points_ascii, small_lt, Hl. Qed.

Lemma filter_ascii (P : Z -> bool) (l : list ascii) :
  spell (filter (fun p => P (fst p) = true) (map (fun c => (byte c, [c])) l))
  = filter (fun c => P (byte c) = true) l.
Proof.
  induction l as [|c l IH]; [reflexivity|].
  cbn [map]. rewrite !filter_cons. cbn [fst].
  destruct (decide (P (byte c) = true)) as [Hc|Hc].
  - unfold spell in *. cbn [map concat app]. f_equal. exact IH.
  - exact IH.
Qed.

Lemma words_ascii (l : list ascii) :
  forall cur,
    map spell (words_from (map (fun c => (byte c, [c])) cur)
                          (map (fun c => (byte c, [c])) l))
    = ascii_words_from cur l.
Proof.
  induction l as [|c l IH]; intros cur.
  - destruct cur; [reflexivity|]. cbn [map words_from ascii_words_from].
    change ((byte a, [a]) :: map (fun c => (byte c, [c])) cur)
      with (map (fun c => (byte c, [c])) (a :: cur)).
    rewrite spell_ascii. reflexivity.
  - cbn [map words_from ascii_words_from fst].
    destruct (is_space (byte c)).
    + destruct cur as [|a cur].
      * apply (IH []).
      * pose proof (IH []) as IH0. cbn [map] in IH0 |- *. rewrite IH0.
        change ((byte a, [a]) :: map (fun c => (byte c, [c])) cur)
          with (map (fun c => (byte c, [c])) (a :: cur)).
        rewrite spell_ascii. reflexivity.
    + rewrite <- (IH (cur ++ [c])), map_app. reflexivity.
Qed.

Lemma words_ascii_all (l : list ascii) :
  map spell (words_from [] (map (fun c => (byte c, [c])) l))
  = ascii_words_from [] l.
Proof. apply (words_ascii l []). Qed.

Lemma lstrip_settled p (ps : list (Z * list ascii)) :
  is_space (fst p) = false -> lstrip (p :: ps) = p :: ps.
Proof. intros H. simpl. rewrite H. reflexivity. Qed.

(** An ASCII text that neither starts nor ends with whitespace is left as
    it is by [strip]. *)
Lemma strip_ends (l : list ascii) :
  Forall (fun c => (byte c <? 128) = true) l ->
  (forall c l', l = c :: l' -> is_space (byte c) = false) ->
  (forall c l', rev l = c :: l' -> is_space (byte c) = false) ->
  strip (string_of_list_ascii l) = string_of_list_ascii l.
Proof.
  intros Hsmall Hhead Hlast. unfold strip.
  rewrite list_ascii_of_string_of_list_ascii, points_small by exact Hsmall.
  f_equal.
  assert (Hl : lstrip (map (fun c => (byte c, [c])) l)
               = map (fun c => (byte c, [c])) l).
  { destruct l as [|c l']; [reflexivity|].
    apply lstrip_settled. eapply Hhead. reflexivity. }
  rewrite Hl. unfold rstrip. rewrite <- map_rev.
  destruct (rev l) as [|c r] eqn:Hrev.
  - apply (f_equal (@rev ascii)) in Hrev. rewrite rev_involutive in Hrev.
    subst l. reflexivity.
  - cbn [map]. rewrite lstrip_settled by (eapply Hlast; reflexivity).
    change ((byte c, [c]) :: map (fun c => (byte c, [c])) r)
      with (map (fun c => (byte c, [c])) (c :: r)).
    rewrite <- Hrev, <- (map_rev _ (rev l)), rev_involutive.
    apply spell_ascii.
Qed.

Lemma upper_settled (l : list ascii) :
  Forall (fun c => upper_char c = c) l -> map upper_char l = l.
Proof.
  induction 1 as [|c l Hc _ IH]; [reflexivity|].
  simpl. rewrite Hc, IH. reflexivity.
Qed.

Lemma ascii_upper_of_list (l : list ascii) :
  ascii_upper (string_of_list_ascii l) = string_of_list_ascii (map upper_char l).
Proof. unfold ascii_upper. rewrite list_ascii_of_string_of_list_ascii. reflexivity. Qed.

Lemma words_from_run (w : list ascii) :
  Forall (fun c => is_space (byte c) = false) w ->
  forall cur cs, ascii_words_from cur (w ++ cs) = ascii_words_from (cur ++ w) cs.
Proof.
  induction 1 as [|c w Hc _ IH]; intros cur cs.
  - rewrite app_nil_r. reflexivity.
  - simpl. rewrite Hc, IH, <- app_assoc. reflexivity.
Qed.

Lemma truthy_of_list (l : list ascii) :
  truthy (string_of_list_ascii l) = match l with [] => false | _ :: _ => true end.
Proof. destruct l; reflexivity. Qed.

(** *** The host name *)

Lemma cut_prefix_small (clean : list ascii) prefix :
  Forall (fun c => (byte c <? 128) = true) clean ->
  Forall (fun c => (byte c <? 128) = true) (cut_prefix clean prefix).
Proof.
  intros H. unfold cut_prefix.
  destruct (startswith _ clean); [|exact H].
  apply Forall_drop, H.
Qed.

Lemma split_on_chars (Q : ascii -> Prop) sep (cs : list ascii) :
  forall cur,
    Forall Q cur -> Forall Q cs -> Forall (Forall Q) (split_on sep cur cs).
Proof.
  induction cs as [|c rest IH]; intros cur Hcur Hcs; simpl.
  - repeat constructor. exact Hcur.
  - inversion Hcs as [|? ? Hc Hrest]; subst.
    destruct (Ascii.eqb c sep).
    + constructor; [exact Hcur|]. apply IH; [constructor | exact Hrest].
    + apply IH; [|exact Hrest].
      apply Forall_app. split; [exact Hcur|]. repeat constructor. exact Hc.
Qed.

Section Str.
Variable lower upper : string -> string.
Variable isalnum : Z -> bool.
Hypothesis library : on_ascii lower upper isalnum.

Lemma derived_name_is_clean_aux domain n :
  is_ascii domain = true ->
  derive_company_name_from_domain lower upper isalnum domain = Some n ->
  exists l,
    n = string_of_list_ascii l /\ l <> []
    /\ Forall (fun c => is_capital_or_digit c = true) l.
Proof.
  destruct library as (Hlower & Hupper & Halnum).
  intros Hdom. unfold derive_company_name_from_domain.
  destruct (truthy domain); [|discriminate]. simpl negb. cbv iota.
  rewrite (Hlower domain Hdom), lower_chars.
  set (clean := fold_left cut_prefix _ _).
  assert (Hclean : Forall (fun c => (byte c <? 128) = true) clean).
  { subst clean. cbn [fold_left]. do 3 apply cut_prefix_small.
    rewrite Forall_map. unfold is_ascii in Hdom.
    rewrite forallb_forall in Hdom. apply List.Forall_forall.
    intros c Hc. apply lower_char_small, Hdom, Hc. }
  set (label := match split_on "."%char [] clean with
                | first :: _ :: _ => first
                | _ => clean
                end).
  assert (Hlabel : Forall (fun c => (byte c <? 128) = true) label).
  { subst label.
    pose proof (split_on_chars _ "."%char clean [] (Forall_nil _) Hclean) as Hp.
    destruct (split_on "."%char [] clean) as [|first [|second rest]];
      try exact Hclean.
    inversion Hp. assumption. }
  rewrite points_small, filter_ascii by exact Hlabel.
  destruct (filter (fun c => isalnum (byte c) = true) label)
    as [|c name] eqn:Hname; [discriminate|].
  assert (Hall : Forall (fun x => (byte x <? 128) = true
                                  /\ ascii_isalnum (byte x) = true)
                        (c :: name)).
  { rewrite <- Hname. apply List.Forall_forall. intros x Hx.
    apply list_elem_of_In, list_elem_of_filter in Hx as [Hx Hin].
    rewrite List.Forall_forall in Hlabel.
    assert (Hsmall : (byte x <? 128) = true)
      by (apply Hlabel, list_elem_of_In, Hin).
    split; [exact Hsmall|].
    rewrite <- Halnum by (apply byte_bounds, Hsmall). exact Hx. }
  rewrite Hupper, ascii_upper_of_list.
  - intros [= <-]. exists (map upper_char (c :: name)).
    split; [reflexivity|]. split; [discriminate|].
    rewrite Forall_map. eapply Forall_impl; [|exact Hall].
    intros x [_ Hx]. apply alnum_upper_clean, Hx.
  - apply is_ascii_of_list. eapply Forall_impl; [|exact Hall].
    intros x [Hx _]. exact Hx.
Qed.

(** Text made of capitals and digits goes through [normalize_name] and
    through the matcher's [strip] unchanged. *)
Lemma clean_text_settled (l : list ascii) :
  l <> [] ->
  Forall (fun c => is_capital_or_digit c = true) l ->
  normalize_name upper (Some (string_of_list_ascii l))
  = Some (string_of_list_ascii l)
  /\ strip (string_of_list_ascii l) = string_of_list_ascii l.
Proof.
  destruct library as (_ & Hupper & _).
  intros Hne Hall.
  assert (Hns : Forall (fun c => is_space (byte c) = false) l)
    by (eapply Forall_impl; [apply clean_not_space | exact Hall]).
  assert (Hup : Forall (fun c => upper_char c = c) l)
    by (eapply Forall_impl; [apply clean_upper_fixed | exact Hall]).
  assert (Hsmall : Forall (fun c => (byte c <? 128) = true) l)
    by (eapply Forall_impl; [apply clean_small | exact Hall]).
  split.
  - unfold normalize_name. rewrite truthy_of_list.
    destruct l as [|c l']; [contradiction|]. simpl negb. cbv iota.
    rewrite Hupper by (apply is_ascii_of_list, Hsmall).
    rewrite ascii_upper_of_list, upper_settled by exact Hup.
    rewrite list_ascii_of_string_of_list_ascii, points_small by exact Hsmall.
    rewrite words_ascii_all.
    rewrite <- (app_nil_r (c :: l')) at 1.
    rewrite words_from_run by exact Hns. reflexivity.
  - apply strip_ends; [exact Hsmall| |].
    + intros c l' ->. inversion Hns. assumption.
    + intros c r Hrev. rewrite List.Forall_forall in Hns. apply Hns.
      apply in_rev. rewrite Hrev. left. reflexivity.
Qed.

End Str.

(** X18. A name derived from an ASCII host is never empty and is made of
    capital letters and digits only. The three library functions are
    taken as they are; what is used of them is what they do on ASCII
    text. *)
Theorem derived_name_is_clean lower upper isalnum domain n :
  on_ascii lower upper isalnum ->
  is_ascii domain = true ->
  derive_company_name_from_domain lower upper isalnum domain = Some n ->
  n <> EmptyString
  /\ Forall (fun c => is_capital_or_digit c = true) (list_ascii_of_string n).
Proof.
  intros Hlib Hdom Hd.
  destruct (derived_name_is_clean_aux lower upper isalnum Hlib domain n Hdom Hd)
    as (l & -> & Hne & Hall).
  rewrite list_ascii_of_string_of_list_ascii. split; [|exact Hall].
  destruct l; [contradiction | discriminate].
Qed.

(** X19. On a name derived from an ASCII host the later steps do nothing:
    [normalize_name] returns it unchanged, so [company_name_norm] equals
    [company_name_raw], and the matcher, which strips the normalised name
    of a web row before comparing, compares exactly this name, which is
    not empty. *)
Theorem derived_name_reaches_matcher lower upper isalnum domain n
    (row : gmap string string) :
  on_ascii lower upper isalnum ->
  is_ascii domain = true ->
  derive_company_name_from_domain lower upper isalnum domain = Some n ->
  normalize_name upper (Some n) = Some n
  /\ (row !! "company_name_norm" = Some n ->
      cc_name_of row = n /\ truthy (cc_name_of row) = true).
Proof.
  intros Hlib Hdom Hd.
  destruct (derived_name_is_clean_aux lower upper isalnum Hlib domain n Hdom Hd)
    as (l & -> & Hne & Hall).
  destruct (clean_text_settled lower upper isalnum Hlib l Hne Hall)
    as [Hnorm Hstrip].
  split; [exact Hnorm|]. intros Hrow.
  unfold cc_name_of, get_or_empty. rewrite Hrow, Hstrip.
  split; [reflexivity|]. rewrite truthy_of_list. destruct l; [contradiction|].
  reflexivity.
Qed.

(** *** [normalize_name] on an ASCII name *)

Lemma words_from_proper (cs : list ascii) :
  forall cur,
    Forall (fun c => is_space (byte c) = false) cur ->
    Forall (fun w => proper_word w) (ascii_words_from cur cs).
Proof.
  induction cs as [|c rest IH]; intros cur Hcur; simpl.
  - destruct cur; constructor; [|constructor]. split; [discriminate | exact Hcur].
  - destruct (is_space (byte c)) eqn:Hc.
    + destruct cur as [|x cur'].
      * apply IH. constructor.
      * constructor; [split; [discriminate | exact Hcur]|]. apply IH. constructor.
    + apply IH. apply Forall_app. split; [exact Hcur|]. repeat constructor. exact Hc.
Qed.

Lemma words_from_chars (Q : ascii -> Prop) (cs : list ascii) :
  forall cur,
    Forall Q cur -> Forall Q cs -> Forall (Forall Q) (ascii_words_from cur cs).
Proof.
  induction cs as [|c rest IH]; intros cur Hcur Hcs; simpl.
  - destruct cur; repeat constructor; inversion Hcur; assumption.
  - inversion Hcs as [|? ? Hc Hrest]; subst.
    destruct (is_space (byte c)).
    + destruct cur as [|x cur'].
      * apply IH; [constructor | exact Hrest].
      * constructor; [exact Hcur|]. apply IH; [constructor | exact Hrest].
    + apply IH; [|exact Hrest].
      apply Forall_app. split; [exact Hcur|]. repeat constructor. exact Hc.
Qed.

Lemma join_space_cons w (rest : list (list ascii)) :
  rest <> [] -> join_space (w :: rest) = w ++ " "%char :: join_space rest.
Proof. destruct rest; [contradiction | reflexivity]. Qed.

Lemma join_space_nonempty (ws : list (list ascii)) :
  ws <> [] -> Forall (fun w => proper_word w) ws -> join_space ws <> [].
Proof.
  intros Hne Hall. destruct ws as [|w rest]; [contradiction|].
  inversion Hall as [|? ? [Hw _] _]; subst.
  destruct rest as [|w2 rest'].
  - exact Hw.
  - rewrite join_space_cons by discriminate.
    destruct w; [contradiction | discriminate].
Qed.

Lemma words_of_join (ws : list (list ascii)) :
  Forall (fun w => proper_word w) ws ->
  ascii_words_from [] (join_space ws) = ws.
Proof.
  induction 1 as [|w rest [Hw Hns] Hrest IH]; [reflexivity|].
  destruct rest as [|w2 rest'].
  - simpl. rewrite <- (app_nil_r w) at 1.
    rewrite words_from_run by exact Hns. simpl.
    destruct w; [contradiction | reflexivity].
  - rewrite join_space_cons by discriminate.
    rewrite words_from_run by exact Hns. simpl app.
    cbn [ascii_words_from].
    change (is_space (byte " "%char)) with true. cbv iota.
    destruct w; [contradiction|]. rewrite IH. reflexivity.
Qed.

Lemma join_space_chars (Q : ascii -> Prop) (ws : list (list ascii)) :
  Q " "%char -> Forall (Forall Q) ws -> Forall Q (join_space ws).
Proof.
  intros Hsp. induction 1 as [|w rest Hw Hrest IH]; [constructor|].
  destruct rest as [|w2 rest']; [exact Hw|].
  rewrite join_space_cons by discriminate.
  apply Forall_app. split; [exact Hw|]. constructor; assumption.
Qed.

Lemma join_space_head (ws : list (list ascii)) c l :
  Forall (fun w => proper_word w) ws ->
  join_space ws = c :: l -> is_space (byte c) = false.
Proof.
  intros Hall Hj. destruct ws as [|w rest]; [discriminate|].
  inversion Hall as [|? ? [Hw Hns] _]; subst.
  destruct w as [|x w']; [contradiction|].
  inversion Hns; subst.
  destruct rest; simpl in Hj; inversion Hj; subst; assumption.
Qed.

Lemma join_space_last (ws : list (list ascii)) :
  Forall (fun w => proper_word w) ws ->
  forall c r, rev (join_space ws) = c :: r -> is_space (byte c) = false.
Proof.
  induction 1 as [|w rest [Hw Hns] Hrest IH]; intros c r Hrev; [discriminate|].
  destruct rest as [|w2 rest'].
  - simpl in Hrev. rewrite List.Forall_forall in Hns. apply Hns.
    apply in_rev. rewrite Hrev. left. reflexivity.
  - rewrite join_space_cons in Hrev by discriminate.
    assert (Hj : join_space (w2 :: rest') <> [])
      by (apply join_space_nonempty; [discriminate | exact Hrest]).
    set (J := join_space (w2 :: rest')) in *.
    rewrite rev_app_distr in Hrev.
    change (rev (" "%char :: J)) with (rev J ++ [" "%char]) in Hrev.
    destruct (rev J) as [|c' r'] eqn:Hr.
    + exfalso. apply Hj. apply (f_equal (@rev ascii)) in Hr.
      rewrite rev_involutive in Hr. exact Hr.
    + simpl in Hrev. inversion Hrev; subst. exact (IH _ _ eq_refl).
Qed.

(** The whitespace-only name is the one case where normalising twice
    differs from normalising once. *)
Example normalize_blank :
  normalize_name ascii_upper (Some "   ") = Some EmptyString.
Proof. vm_compute. reflexivity. Qed.

Example normalize_empty : normalize_name ascii_upper (Some EmptyString) = None.
Proof. reflexivity. Qed.

Example normalize_spaced :
  normalize_name ascii_upper (Some "  acme   pty ltd ") = Some "ACME PTY LTD".
Proof. vm_compute. reflexivity. Qed.

(** Words are split at every whitespace character, a no-break space
    (U+00A0) included. *)
Example normalize_no_break_space :
  normalize_name (fun s => s)
    (Some (text_of_bytes [65; 194; 160; 66])) = Some "A B".
Proof. vm_compute. reflexivity. Qed.

(** X20. What [normalize_name] returns for an ASCII name is settled:
    stripping it changes nothing, so the matcher compares a stored
    normalised name as it is, and, unless it is empty, normalising it
    again returns it unchanged. Of [str.upper] only what it does on ASCII
    text is used. *)
Theorem normalized_name_is_settled (upper : string -> string) n0 n
    (row : gmap string string) :
  (forall s, is_ascii s = true -> upper s = ascii_upper s) ->
  is_ascii n0 = true ->
  normalize_name upper (Some n0) = Some n ->
  strip n = n
  /\ (n <> EmptyString -> normalize_name upper (Some n) = Some n)
  /\ (row !! "company_name_norm" = Some n -> cc_name_of row = n).
Proof.
  intros Hupper Hascii. unfold normalize_name at 1.
  destruct (truthy n0); [|discriminate]. simpl negb. cbv iota.
  rewrite (Hupper n0 Hascii). unfold ascii_upper at 1.
  rewrite list_ascii_of_string_of_list_ascii.
  set (cs := map upper_char (list_ascii_of_string n0)).
  assert (Hcs : Forall (fun c => (byte c <? 128) = true) cs).
  { subst cs. rewrite Forall_map. unfold is_ascii in Hascii.
    rewrite forallb_forall in Hascii. apply List.Forall_forall.
    intros c Hc. apply upper_char_small, Hascii, Hc. }
  rewrite points_small by exact Hcs. rewrite words_ascii_all.
  intros [= <-].
  assert (Hproper : Forall (fun w => proper_word w) (ascii_words_from [] cs))
    by (apply words_from_proper; constructor).
  assert (Hfixed : Forall (Forall (fun c => upper_char c = c))
                          (ascii_words_from [] cs)).
  { apply words_from_chars; [constructor|].
    subst cs. rewrite Forall_map.
    apply List.Forall_forall. intros c _. apply upper_char_idem. }
  assert (Hsmall : Forall (fun c => (byte c <? 128) = true)
                          (join_space (ascii_words_from [] cs))).
  { apply join_space_chars; [reflexivity|].
    apply words_from_chars; [constructor | exact Hcs]. }
  assert (Hstrip : strip (string_of_list_ascii
                            (join_space (ascii_words_from [] cs)))
                   = string_of_list_ascii (join_space (ascii_words_from [] cs))).
  { apply strip_ends; [exact Hsmall| |].
    - intros c l Hj. eapply join_space_head; eauto.
    - intros c r Hr. eapply join_space_last; eauto. }
  split; [exact Hstrip|]. split.
  - intros Hne. unfold normalize_name. rewrite truthy_of_list.
    destruct (join_space (ascii_words_from [] cs)) as [|c l] eqn:Hj;
      [contradiction|].
    simpl negb. cbv iota. rewrite <- Hj in Hsmall |- *.
    rewrite Hupper by (apply is_ascii_of_list, Hsmall).
    rewrite ascii_upper_of_list.
    rewrite upper_settled
      by (apply join_space_chars; [reflexivity | exact Hfixed]).
    rewrite list_ascii_of_string_of_list_ascii, points_small by exact Hsmall.
    rewrite words_ascii_all, words_of_join by exact Hproper. reflexivity.
  - intros Hrow. unfold cc_name_of, get_or_empty. rewrite Hrow. exact Hstrip.
Qed.

(** The library functions of the worked examples are the ASCII ones. *)
Lemma on_ascii_sample : on_ascii Text.lower ascii_upper ascii_isalnum.
Proof. repeat split; intros; reflexivity. Qed.

Lemma derived_name_is_clean_witness :
  "ACMEWIDGETS" <> EmptyString
  /\ Forall (fun c => is_capital_or_digit c = true)
            (list_ascii_of_string "ACMEWIDGETS").
Proof.
  apply (derived_name_is_clean Text.lower ascii_upper ascii_isalnum
           "www.acme-widgets.com.au" "ACMEWIDGETS").
  - repeat split; intros; reflexivity.
  - reflexivity.
  - vm_compute. reflexivity.
Defined.

Lemma derived_name_reaches_matcher_witness :
  normalize_name ascii_upper (Some "ACMEWIDGETS") = Some "ACMEWIDGETS".
Proof.
  apply (derived_name_reaches_matcher Text.lower ascii_upper ascii_isalnum
           "www.acme-widgets.com.au" "ACMEWIDGETS" ∅).
  - repeat split; intros; reflexivity.
  - reflexivity.
  - vm_compute. reflexivity.
Defined.

Lemma normalized_name_is_settled_witness : strip "ACME PTY LTD" = "ACME PTY LTD".
Proof.
  apply (normalized_name_is_settled ascii_upper "  acme   pty ltd "
           "ACME PTY LTD" ∅).
  - intros; reflexivity.
  - reflexivity.
  - vm_compute. reflexivity.
Defined.

End IngestFacts.

(** ** Bulk loading *)

Module BulkFacts.
Import Bulk.

Lemma after_brace_app (pre local : string) :
  after_brace pre = None ->
  after_brace (pre +:+ String "}"%char local) = Some local.
Proof.
  induction pre as [|c pre IH]; simpl.
  - reflexivity.
  - destruct (Ascii.eqb c "}"%char); [discriminate | exact IH].
Qed.

(** X21. [strip_ns] removes a namespace in braces: a tag written as the
    namespace, a closing brace and the local name, where only that brace
    is a closing brace before the local name, gives the local name; a tag
    without a closing brace is returned as it is. *)
Theorem strip_ns_removes_namespace (pre local tag : string) :
  (after_brace pre = None ->
   strip_ns (pre +:+ String "}"%char local) = local)
  /\ (after_brace tag = None -> strip_ns tag = tag).
Proof.
  split.
  - intros Hpre. unfold strip_ns. rewrite after_brace_app by exact Hpre.
    reflexivity.
  - intros Htag. unfold strip_ns. rewrite Htag. reflexivity.
Qed.

Example strip_ns_abr :
  strip_ns "{http://abr.business.gov.au}ABR" = "ABR".
Proof. reflexivity. Qed.

Example strip_ns_plain : strip_ns "ABN" = "ABN".
Proof. reflexivity. Qed.

Lemma strip_ns_removes_namespace_witness :
  strip_ns ("{urn:x" +:+ String "}"%char "State") = "State".
Proof.
  apply (strip_ns_removes_namespace "{urn:x" "State" "State"). reflexivity.
Defined.

Section Batches.
Context {A : Type}.

(** What the loop keeps true, for a batch size of at least 1: the calls
    made and the open batch hold the records read so far, in order; every
    call made had a full batch; the open batch is not full; [total] counts
    the rows of the calls made. *)
Lemma batch_loop (size : nat) (records : list A) :
  (1 <= size)%nat ->
  forall batch executed total,
    (length batch < size)%nat ->
    Forall (fun b => length b = size) executed ->
    total = length (concat executed) ->
    let '(batch', executed', total') :=
      fold_left (batch_step size) records (batch, executed, total) in
    concat executed' ++ batch' = concat executed ++ batch ++ records
    /\ (length batch' < size)%nat
    /\ Forall (fun b => length b = size) executed'
    /\ total' = length (concat executed').
Proof.
  intros Hsize. induction records as [|r rest IH];
    intros batch executed total Hb Hfull Htot.
  - simpl. rewrite app_nil_r. auto.
  - cbn [fold_left]. unfold batch_step at 2.
    destruct (Nat.leb_spec size (length (batch ++ [r]))) as [Hge|Hlt].
    + assert (Hlen : length (batch ++ [r]) = size)
        by (rewrite length_app in *; simpl in *; lia).
      specialize (IH [] (executed ++ [batch ++ [r]])
                     (total + length (batch ++ [r]))%nat).
      destruct (fold_left (batch_step size) rest
                  ([], executed ++ [batch ++ [r]],
                   (total + length (batch ++ [r]))%nat))
        as [[batch' executed'] total'].
      destruct IH as (Hcat & Hb' & Hfull' & Htot').
      * simpl. lia.
      * apply Forall_app. split; [exact Hfull|]. repeat constructor. exact Hlen.
      * rewrite Htot, concat_app. cbn [concat].
        rewrite app_nil_r, !length_app. reflexivity.
      * split; [|auto]. rewrite Hcat, concat_app. simpl.
        rewrite app_nil_r, <- !app_assoc. reflexivity.
    + specialize (IH (batch ++ [r]) executed total).
      destruct (fold_left (batch_step size) rest (batch ++ [r], executed, total))
        as [[batch' executed'] total'].
      destruct IH as (Hcat & Hb' & Hfull' & Htot'); auto.
      split; [|auto]. rewrite Hcat, <- !app_assoc. reflexivity.
Qed.

(** X22. The batched insert loop loses and duplicates no record. For a
    batch size of at least 1, the rows handed to the successive
    [execute_values] calls, put end to end, are the records in order;
    [total] is their number; every call but the last gets exactly
    [BATCH_SIZE] rows, and the last gets between 1 and [BATCH_SIZE]. *)
Theorem batches_cover_records (size : nat) (records : list A) :
  (1 <= size)%nat ->
  let '(calls, total) := load_in_batches size records in
  concat calls = records
  /\ total = length records
  /\ Forall (fun b => (1 <= length b <= size)%nat) calls
  /\ exists full rest,
       calls = full ++ rest
       /\ Forall (fun b => length b = size) full
       /\ (length rest <= 1)%nat.
Proof.
  intros Hsize. unfold load_in_batches.
  pose proof (batch_loop size records Hsize [] [] 0%nat) as H.
  destruct (fold_left (batch_step size) records ([], [], 0%nat))
    as [[batch executed] total].
  destruct H as (Hcat & Hb & Hfull & Htot); [simpl; lia | constructor | reflexivity |].
  simpl in Hcat.
  assert (Hbounds : Forall (fun b => (1 <= length b <= size)%nat) executed).
  { eapply Forall_impl; [|exact Hfull]. simpl. intros b ->. lia. }
  destruct batch as [|x batch'].
  - rewrite app_nil_r in Hcat. split; [exact Hcat|].
    split; [rewrite Htot, Hcat; reflexivity|]. split; [exact Hbounds|].
    exists executed, []. rewrite app_nil_r. auto.
  - split; [rewrite concat_app; simpl; rewrite app_nil_r; exact Hcat|].
    split.
    + rewrite Htot, <- Hcat, length_app. reflexivity.
    + split.
      * apply Forall_app. split; [exact Hbounds|].
        constructor; [|constructor]. simpl in *. lia.
      * exists executed, [x :: batch']. auto.
Qed.

End Batches.

Lemma batches_cover_records_witness :
  concat (fst (load_in_batches 2 [1; 2; 3; 4; 5]%nat)) = [1; 2; 3; 4; 5]%nat.
Proof.
  pose proof (batches_cover_records 2 [1; 2; 3; 4; 5]%nat) as H.
  destruct (load_in_batches 2 [1; 2; 3; 4; 5]%nat) as [calls total].
  apply H. lia.
Defined.

Example five_records_in_batches_of_two :
  load_in_batches 2 [1; 2; 3; 4; 5]%nat
  = ([[1; 2]; [3; 4]; [5]]%nat, 5%nat).
Proof. reflexivity. Qed.

End BulkFacts.

(** ** One registry record from XML *)

Module AbrXmlFacts.
Import Text Bulk AbrXml.

Lemma item_set_first_ne r k v k' :
  k <> k' -> item (set_first r k v) k' = item r k'.
Proof.
  intros Hne. unfold set_first, item.
  destruct (opt_truthy v && negb (opt_truthy _)); [|reflexivity].
  rewrite lookup_insert_ne by exact Hne. reflexivity.
Qed.

Lemma set_first_kept r k v :
  opt_truthy (item r k) = true -> set_first r k v = r.
Proof.
  intros H. unfold set_first. rewrite H, andb_false_r. reflexivity.
Qed.

Lemma first_of_kept cur v : opt_truthy cur = true -> first_of cur v = cur.
Proof. intros H. unfold first_of. rewrite H, andb_false_r. reflexivity. Qed.

Ltac by_tag :=
  unfold visit; cbv zeta;
  repeat match goal with
         | |- context [String.eqb ?a ?b] => destruct (String.eqb a b)
         end; cbn [rec main_name_candidate].

Ltac not_written :=
  unfold written_keys;
  let H := fresh in
  intros H; repeat (apply elem_of_cons in H as [H|H]; [discriminate|]);
  inversion H.

Ltac is_written :=
  unfold written_keys; apply list_elem_of_In; simpl; auto 10.

Lemma visit_other_keys st c k :
  k ∉ written_keys -> item (rec (visit st c)) k = item (rec st) k.
Proof.
  intros Hk.
  assert (Hne : forall k', k' ∈ written_keys -> k' <> k)
    by (intros k' Hin ->; contradiction).
  by_tag; rewrite ?item_set_first_ne; try reflexivity;
    apply Hne; is_written.
Qed.

Lemma fold_other_keys (l : list element) k :
  k ∉ written_keys ->
  forall st, item (rec (fold_left visit l st)) k = item (rec st) k.
Proof.
  intros Hk. induction l as [|c l IH]; intros st; [reflexivity|].
  simpl. rewrite IH. apply visit_other_keys, Hk.
Qed.

Lemma decide_name_other st k :
  k <> "entity_name" -> item (decide_name st) k = item (rec st) k.
Proof.
  intros Hne. unfold decide_name, item.
  destruct (opt_truthy (main_name_candidate st)).
  - rewrite lookup_insert_ne by congruence. reflexivity.
  - destruct (negb _ || _); [|reflexivity].
    rewrite lookup_insert_ne by congruence. reflexivity.
Qed.

Lemma parse_other_keys e k :
  k ∉ written_keys -> k <> "entity_name" ->
  item (parse_abr_entity e) k = item empty_record k.
Proof.
  intros Hk Hne. unfold parse_abr_entity.
  rewrite decide_name_other by exact Hne.
  rewrite fold_other_keys by exact Hk. cbn [rec].
  apply item_set_first_ne. intros <-. apply Hk. is_written.
Qed.

(** X23. For every element, the record built by [parse_abr_entity] has
    country AU and no suburb and no address line: the loop never writes
    these fields. *)
Theorem address_fields_never_filled e :
  let r := parse_abr_entity e in
  item r "country" = Some "AU"
  /\ item r "suburb" = None
  /\ item r "address_line_1" = None
  /\ item r "address_line_2" = None.
Proof.
  cbv zeta.
  repeat split; rewrite parse_other_keys;
    try reflexivity; try discriminate; not_written.
Qed.

(** *** The organisation name *)

Lemma visit_main st c :
  main_name_candidate (visit st c)
  = if String.eqb (strip_ns (e_tag c)) "NonIndividualNameText"
    then first_of (main_name_candidate st) (Some (text_of c))
    else main_name_candidate st.
Proof.
  unfold visit, text_of. cbv zeta.
  destruct (String.eqb_spec (strip_ns (e_tag c)) "ABN") as [Heq|_];
    [rewrite ?Heq; reflexivity|].
  destruct (String.eqb_spec (strip_ns (e_tag c)) "EntityTypeText") as [Heq|_];
    [rewrite ?Heq; reflexivity|].
  destruct (String.eqb_spec (strip_ns (e_tag c)) "NonIndividualNameText")
    as [Heq|_]; [rewrite ?Heq; reflexivity|].
  repeat match goal with
         | |- context [String.eqb ?a ?b] => destruct (String.eqb a b)
         end; reflexivity.
Qed.

Lemma fold_main_kept (l : list element) :
  forall st,
    opt_truthy (main_name_candidate st) = true ->
    main_name_candidate (fold_left visit l st) = main_name_candidate st.
Proof.
  induction l as [|c l IH]; intros st Hst; [reflexivity|].
  simpl.
  assert (Hstep : main_name_candidate (visit st c) = main_name_candidate st).
  { rewrite visit_main.
    destruct (String.eqb _ _); [apply first_of_kept, Hst | reflexivity]. }
  rewrite IH by (rewrite Hstep; exact Hst). exact Hstep.
Qed.

Lemma fold_main_none (l : list element) :
  Forall (fun x => names_organisation x = false) l ->
  forall st,
    opt_truthy (main_name_candidate st) = false ->
    main_name_candidate (fold_left visit l st) = main_name_candidate st.
Proof.
  induction 1 as [|c l Hc _ IH]; intros st Hst; [reflexivity|].
  simpl.
  assert (Hstep : main_name_candidate (visit st c) = main_name_candidate st).
  { rewrite visit_main. unfold names_organisation in Hc.
    destruct (String.eqb _ _); [|reflexivity].
    simpl in Hc. unfold first_of. simpl. rewrite Hc. reflexivity. }
  rewrite IH by (rewrite Hstep; exact Hst). exact Hstep.
Qed.

(** X24. The organisation name wins. When some element of the record, in
    document order, is the first [NonIndividualNameText] with a non-blank
    text, the entity name is that text, stripped, whatever given names and
    family names the record holds before or after it. *)
Theorem organisation_name_wins e (pre post : list element) c :
  iter e = pre ++ c :: post ->
  names_organisation c = true ->
  Forall (fun x => names_organisation x = false) pre ->
  item (parse_abr_entity e) "entity_name" = Some (text_of c).
Proof.
  intros Hiter Hc Hpre. unfold parse_abr_entity. rewrite Hiter.
  rewrite fold_left_app. cbn [fold_left].
  set (st0 := Parsing _ None [] None).
  set (st1 := fold_left visit pre st0).
  assert (H1 : main_name_candidate st1 = None)
    by (subst st1; rewrite fold_main_none; auto).
  assert (H2 : main_name_candidate (visit st1 c) = Some (text_of c)).
  { rewrite visit_main, H1. unfold names_organisation in Hc.
    apply andb_true_iff in Hc as [-> Ht].
    unfold first_of. simpl. rewrite Ht. reflexivity. }
  assert (Ht : truthy (text_of c) = true)
    by (unfold names_organisation in Hc; apply andb_true_iff in Hc; tauto).
  assert (H3 : main_name_candidate (fold_left visit post (visit st1 c))
               = Some (text_of c))
    by (rewrite fold_main_kept; rewrite H2; auto).
  unfold decide_name. rewrite H3. simpl. rewrite Ht.
  unfold item. rewrite lookup_insert_eq. reflexivity.
Qed.

(** *** The start date *)

Lemma visit_start_kept st c :
  opt_truthy (item (rec st) "start_date_raw") = true ->
  item (rec (visit st c)) "start_date_raw" = item (rec st) "start_date_raw".
Proof.
  intros Hst. by_tag; try reflexivity;
    rewrite ?item_set_first_ne by discriminate; try reflexivity.
  - rewrite set_first_kept; rewrite ?item_set_first_ne by discriminate;
      [reflexivity | exact Hst].
  - rewrite set_first_kept; [reflexivity | exact Hst].
Qed.

Lemma fold_start_kept (l : list element) :
  forall st,
    opt_truthy (item (rec st) "start_date_raw") = true ->
    item (rec (fold_left visit l st)) "start_date_raw"
    = item (rec st) "start_date_raw".
Proof.
  induction l as [|c l IH]; intros st Hst; [reflexivity|].
  simpl. rewrite IH; rewrite visit_start_kept by exact Hst; auto.
Qed.

(** X25. The record's own update date takes precedence as start date:
    when the ABR element has a non-empty [recordLastUpdatedDate]
    attribute, [start_date_raw] is that value, whatever
    [ABNStatusFromDate] and [GSTStatusFromDate] the record holds. *)
Theorem record_date_takes_precedence e d :
  e_attrib e !! "recordLastUpdatedDate" = Some d ->
  truthy d = true ->
  item (parse_abr_entity e) "start_date_raw" = Some d.
Proof.
  intros Hattr Hd. unfold parse_abr_entity.
  rewrite decide_name_other by discriminate.
  assert (Hstart : item (set_first empty_record "start_date_raw"
                           (e_attrib e !! "recordLastUpdatedDate"))
                        "start_date_raw" = Some d).
  { rewrite Hattr. unfold set_first. simpl opt_truthy. rewrite Hd.
    change (opt_truthy (item empty_record "start_date_raw")) with false.
    simpl. unfold item. rewrite lookup_insert_eq. reflexivity. }
  rewrite fold_start_kept; cbn [rec]; rewrite Hstart; [reflexivity | exact Hd].
Qed.

Import XmlSamples.

Example organisation_record_parsed :
  let r := parse_abr_entity org_record in
  item r "abn" = Some "55447533728"
  /\ item r "entity_name" = Some "ACME PTY LTD"
  /\ item r "entity_status" = Some "ACT"
  /\ item r "state" = Some "NSW"
  /\ item r "postcode" = Some "2170"
  /\ item r "start_date_raw" = Some "20220512"
  /\ is_yielded r = true.
Proof. vm_compute. repeat split. Qed.

Example person_record_parsed :
  let r := parse_abr_entity person_record in
  item r "entity_name" = Some "JANE MARY DOE"
  /\ item r "start_date_raw" = Some "20000101".
Proof. vm_compute. repeat split. Qed.

(** A name element that holds whitespace only, a no-break space here, is
    passed over. *)
Example spaced_record_parsed :
  item (parse_abr_entity spaced_record) "entity_name" = Some "ACME".
Proof. vm_compute. reflexivity. Qed.

Lemma organisation_name_wins_witness :
  item (parse_abr_entity org_record) "entity_name" = Some (text_of org_name).
Proof.
  apply (organisation_name_wins org_record
           [org_record; abn_node;
            Elem "LegalEntity" ∅ None
              [ Elem "IndividualName" ∅ None
                  [ leaf "GivenName" "JANE"; leaf "FamilyName" "DOE" ] ];
            Elem "IndividualName" ∅ None
              [ leaf "GivenName" "JANE"; leaf "FamilyName" "DOE" ];
            leaf "GivenName" "JANE"; leaf "FamilyName" "DOE";
            Elem "MainEntity" ∅ None
              [ org_name;
                Elem "BusinessAddress" ∅ None
                  [ leaf "State" "NSW"; leaf "Postcode" "2170" ] ]]
           [Elem "BusinessAddress" ∅ None
              [ leaf "State" "NSW"; leaf "Postcode" "2170" ];
            leaf "State" "NSW"; leaf "Postcode" "2170";
            Elem "GST" {[ "GSTStatusFromDate" := "20120101" ]} None []]
           org_name).
  - reflexivity.
  - reflexivity.
  - repeat constructor.
Defined.

Lemma record_date_takes_precedence_witness :
  item (parse_abr_entity org_record) "start_date_raw" = Some "20220512".
Proof.
  apply (record_date_takes_precedence org_record "20220512"); reflexivity.
Defined.

End AbrXmlFacts.
